(** * Reactive core of the HorizonSim PFD bundle (SaltyIRS.js)

    A shallow embedding of the observable / event-bus / consumer classes of
    [html_ui/Pages/HorizonSim/SaltyIRS.js] and the properties of its
    specification that concern them.

    Conventions of the embedding.
    - A JavaScript function value is identified by a number ([Fn]): the code
      compares callbacks by identity only ([indexOf]).
    - What a callback does when it is invoked is given by a behaviour
      function: it receives the arguments and the current state of the object
      it may reach, and returns a completion (normal return or a thrown
      error), the state it leaves behind and the effects it performed.
      Re-entrant calls of a callback into the object ([on], [off], [sub],
      [unsub], ...) are state changes of that kind, and the calls they make
      in turn are among the effects of the callback.
    - Every operation returns the list of effects it performed, in program
      order, next to its final state and its completion; the effects of a
      callback are recorded inside the call that ran it.
    - JavaScript numbers are idealised as rationals ([Q]); [Date.now()] is an
      explicit argument.  Sums, products and quotients are exact here and
      rounded to binary64 in the code, so what is proved below of numbers is
      what the comparisons of the code decide, not how close to the exact
      value its arithmetic comes. *)

From Stdlib Require Import ZArith QArith Qround Qabs Qpower Lqa Lia List Bool Ascii String.
From stdpp Require Import base gmap strings list.

Set Implicit Arguments.
Unset Strict Implicit.

(** ** JavaScript preliminaries *)

(** Identity of a function object. *)
Definition Fn : Type := nat.

(** Identity of the object whose method produced an effect. *)
Definition Obj : Type := nat.

Inductive JsError : Type :=
| TypeError               (* calling [undefined], e.g. [xs[i](v)] past the end *)
| SyntaxError             (* [JSON.parse] on malformed text *)
| UserError (tag : nat).  (* an error thrown by a callback *)

Inductive Completion : Type :=
| Returned
| Thrown (e : JsError).

(** Result of running a piece of code in world [W] with effects [E]. *)
Record Run (W E : Type) : Type := mkRun {
  completion : Completion;
  world : W;
  trace : list E
}.

(** [xs.indexOf(f)], [None] standing for [-1]. *)
Fixpoint indexOf (f : Fn) (xs : list Fn) : option nat :=
  match xs with
  | [] => None
  | x :: xs' => if Nat.eqb x f then Some 0%nat else option_map S (indexOf f xs')
  end.

(** [xs.splice(i, 1)]; past the end nothing is removed. *)
Fixpoint splice1 (i : nat) (xs : list Fn) : list Fn :=
  match xs, i with
  | [], _ => []
  | _ :: xs', O => xs'
  | x :: xs', S i' => x :: splice1 i' xs'
  end.

(** A parameter with a default value: [None] is an omitted or [undefined]
    argument. *)
Definition or_default (d : bool) (a : option bool) : bool :=
  match a with Some b => b | None => d end.

(** ** AbstractSubscribable (lines 70-112) *)

(** Effects of a notification.  A call records the nested effects the
    callback itself produced. *)
#[warnings="-register-all"]
Inductive SubEvent (V : Type) : Type :=
| Called (self : Obj) (f : Fn) (v : V) (inner : list (SubEvent V))
| ConsoleError (e : JsError).

Arguments ConsoleError {V} e.

(** The callbacks invoked directly by an operation, with their argument. *)
Definition top_calls {V : Type} (tr : list (SubEvent V)) : list (Fn * V) :=
  omap (fun ev => match ev with
                  | Called _ f v _ => Some (f, v)
                  | ConsoleError _ => None
                  end) tr.

Arguments top_calls : simpl never.

Module AbstractSubscribable.
Section Class.
Context {W V : Type}.
(** The object: its identity, its [subs] field and its [get()] method. *)
Variable self : Obj.
Variable subs : W -> list Fn.
Variable with_subs : list Fn -> W -> W.
Variable get : W -> V.
(** Behaviour of the callbacks. *)
Variable call : Fn -> V -> W -> Run W (SubEvent V).

(** [sub(fn, initialNotify)] *)
Definition sub (fn : Fn) (initialNotify : bool) (w : W) : Run W (SubEvent V) :=
  let w1 := with_subs (subs w ++ [fn]) w in
  if initialNotify then
    let r := call fn (get w1) w1 in
    mkRun (completion r) (world r) [Called self fn (get w1) (trace r)]
  else mkRun Returned w1 [].

(** [unsub(fn)] *)
Definition unsub (fn : Fn) (w : W) : W :=
  match indexOf fn (subs w) with
  | Some index => with_subs (splice1 index (subs w)) w
  | None => w
  end.

(** One turn of the loop of [notify]: [try { this.subs[i](this.get()) }
    catch (error) { console.error(...) }]. *)
Definition notify_step (i : nat) (w : W) : W * list (SubEvent V) :=
  match subs w !! i with
  | Some f =>
      let r := call f (get w) w in
      (world r,
       Called self f (get w) (trace r) ::
       match completion r with
       | Returned => []
       | Thrown e => [ConsoleError e]
       end)
  | None => (w, [ConsoleError TypeError])
  end.

(** [for (let i = 0; i < subLen; i++)], with [n] turns left. *)
Fixpoint notify_loop (n i : nat) (w : W) : W * list (SubEvent V) :=
  match n with
  | O => (w, [])
  | S n' =>
      let '(w1, t1) := notify_step i w in
      let '(w2, t2) := notify_loop n' (S i) w1 in
      (w2, t1 ++ t2)
  end.

(** [notify()]: the length is read once, the array at every turn. *)
Definition notify (w : W) : Run W (SubEvent V) :=
  let subLen := length (subs w) in
  let '(w', t) := notify_loop subLen 0 w in
  mkRun Returned w' t.

End Class.
End AbstractSubscribable.

(** ** Subject (lines 117-192) *)

Module Subject.

Record t (V : Type) : Type := mk {
  value : V;
  equalityFunc : V -> V -> bool;
  mutateFunc : option (V -> V -> V);  (* the content [mutateFunc(old, new)] leaves in [old] *)
  subs : list Fn
}.

Definition with_value {V} (v : V) (s : t V) : t V :=
  mk v (equalityFunc s) (mutateFunc s) (subs s).

Definition with_subs {V} (l : list Fn) (s : t V) : t V :=
  mk (value s) (equalityFunc s) (mutateFunc s) l.

(** A subject standing alone: [this] is the whole world. *)
Definition this {V} (s : t V) : t V := s.
Definition put_this {V} (s : t V) (_ : t V) : t V := s.

(** [Subject.create(v, equalityFunc, mutateFunc)] *)
Definition create {V} (v : V) (equalityFunc : V -> V -> bool)
    (mutateFunc : option (V -> V -> V)) : t V :=
  mk v equalityFunc mutateFunc [].

Section Class.
Context {W V : Type}.
(** The subject lives in a world [W]: [this] is read with [getS] and written
    back with [putS]. *)
Variable self : Obj.
Variable getS : W -> t V.
Variable putS : t V -> W -> W.
Variable call : Fn -> V -> W -> Run W (SubEvent V).

Definition get (w : W) : V := value (getS w).

Definition notify (w : W) : Run W (SubEvent V) :=
  AbstractSubscribable.notify self (fun w => subs (getS w)) get call w.

Definition sub (fn : Fn) (initialNotify : bool) (w : W) : Run W (SubEvent V) :=
  AbstractSubscribable.sub self (fun w => subs (getS w))
    (fun l w => putS (with_subs l (getS w)) w) get call fn initialNotify w.

Definition unsub (fn : Fn) (w : W) : W :=
  AbstractSubscribable.unsub (fun w => subs (getS w))
    (fun l w => putS (with_subs l (getS w)) w) fn w.

(** [set(value)] *)
Definition set (x : V) (w : W) : Run W (SubEvent V) :=
  let this := getS w in
  if negb (equalityFunc this x (value this)) then
    let w1 :=
      match mutateFunc this with
      | Some mutate => putS (with_value (mutate (value this) x) this) w
      | None => putS (with_value x this) w
      end in
    notify w1
  else mkRun Returned w [].

End Class.

(** Subjects whose value is an object: a finite map from the names of its
    own properties to their values.  [F] is the type of the property values;
    [undefined] is one of them, and it is what reading a property the object
    does not have gives; [strict_equal] is [===] on them (on which [NaN]
    differs from itself).  The argument of [apply] is given by its own
    properties, in the order [for ... in] and [Object.assign] go through
    them. *)
Section Apply.
Context {W F : Type}.
Variable undefined : F.
Variable strict_equal : F -> F -> bool.
Variable self : Obj.
Variable getS : W -> t (gmap string F).
Variable putS : t (gmap string F) -> W -> W.
Variable call : Fn -> gmap string F -> W -> Run W (SubEvent (gmap string F)).

(** [o[prop]] *)
Definition read (o : gmap string F) (prop : string) : F := default undefined (o !! prop).

(** [for (const prop in value) { changed = value[prop] !== this.value[prop];
    if (changed) break; }] *)
Fixpoint apply_changed (props : list (string * F)) (current : gmap string F) : bool :=
  match props with
  | [] => false
  | (prop, x) :: rest =>
      if negb (strict_equal x (read current prop)) then true
      else apply_changed rest current
  end.

(** [Object.assign(this.value, value)] *)
Definition Object_assign (current : gmap string F) (props : list (string * F))
  : gmap string F :=
  fold_left (fun m px => <[px.1 := px.2]> m) props current.

(** [apply(value)] *)
Definition apply (props : list (string * F)) (w : W) : Run W (SubEvent (gmap string F)) :=
  let this := getS w in
  let changed := apply_changed props (value this) in
  let w1 := putS (with_value (Object_assign (value this) props) this) w in
  if changed then notify self getS call w1 else mkRun Returned w1 [].

End Apply.
End Subject.

(** ** ComputedSubject (lines 281-362) *)

Module ComputedSubject.

Inductive Event (I T : Type) : Type :=
| Called (f : Fn) (computed : T) (raw : I).

Record t (I T : Type) : Type := mk {
  computeFn : I -> T;
  _subs : list Fn;
  _value : I;
  _computedValue : T
}.

Section Class.
Context {I T : Type} `{EqDecision T}.
Variable call : Fn -> T -> I -> t I T -> Completion * t I T.

(** [new ComputedSubject(value, computeFn)] *)
Definition create (v : I) (fn : I -> T) : t I T := mk fn [] v (fn v).

(** [sub(fn)], without the initial notification. *)
Definition sub (fn : Fn) (s : t I T) : t I T :=
  mk (computeFn s) (_subs s ++ [fn]) (_value s) (_computedValue s).

(** The loop of [set]: the call is not guarded, an error leaves the loop and
    the method. *)
Fixpoint set_loop (n i : nat) (s : t I T) : Run (t I T) (Event I T) :=
  match n with
  | O => mkRun Returned s []
  | S n' =>
      match _subs s !! i with
      | Some f =>
          let ev := Called f (_computedValue s) (_value s) in
          match call f (_computedValue s) (_value s) s with
          | (Returned, s1) =>
              let r := set_loop n' (S i) s1 in
              mkRun (completion r) (world r) (ev :: trace r)
          | (Thrown e, s1) => mkRun (Thrown e) s1 [ev]
          end
      | None => mkRun (Thrown TypeError) s []
      end
  end.

(** [set(value)] *)
Definition set (x : I) (s : t I T) : Run (t I T) (Event I T) :=
  let s1 := mk (computeFn s) (_subs s) x (_computedValue s) in
  let compValue := computeFn s1 x in
  if decide (compValue = _computedValue s1) then mkRun Returned s1 []
  else
    let s2 := mk (computeFn s1) (_subs s1) (_value s1) compValue in
    set_loop (length (_subs s2)) 0 s2.

End Class.
End ComputedSubject.

(** ** EventBus (lines 1094-1229) *)

Module EventBus.

Record CacheEntry (D : Type) : Type := mkEntry {
  data : D;
  synced : bool
}.

Record t (D : Type) : Type := mk {
  _topicHandlersMap : gmap string (list Fn);
  _wildcardHandlers : list Fn;
  _eventCache : gmap string (CacheEntry D);
  _busId : Z
}.

(** Effects of the bus, in program order.  A call records the effects the
    callback itself produced on the bus while it ran ([inner]). *)
#[warnings="-register-all"]
Inductive Event (D : Type) : Type :=
| CacheSet (topic : string) (entry : CacheEntry D)     (* [this._eventCache.set(topic, entry)] *)
| HandlerCall (h : Fn) (d : D) (inner : list (Event D))
                                                       (* [handlers[i](data)], [handler(lastState)] *)
| ErrorLogged (e : JsError)                            (* [console.error(...)] in a [catch] *)
| SendEvent (topic : string) (d : D) (isCached : bool) (* [this._busSync.sendEvent(topic, data, isCached)] *)
| WildcardCall (h : Fn) (topic : string) (d : D) (inner : list (Event D)).
                                                       (* [this._wildcardHandlers[i](topic, data)] *)

Arguments ErrorLogged {D} e.

Definition with_topicHandlersMap {D} (m : gmap string (list Fn)) (b : t D) : t D :=
  mk m (_wildcardHandlers b) (_eventCache b) (_busId b).

Definition with_wildcardHandlers {D} (l : list Fn) (b : t D) : t D :=
  mk (_topicHandlersMap b) l (_eventCache b) (_busId b).

Definition with_eventCache {D} (c : gmap string (CacheEntry D)) (b : t D) : t D :=
  mk (_topicHandlersMap b) (_wildcardHandlers b) c (_busId b).

(** The array bound to [handlers] in [pub].  [on] and [off] change the array
    of a topic in place and never replace it once it exists, so the array the
    loop holds is the one the map holds. *)
Definition handlers_of {D} (topic : string) (b : t D) : list Fn :=
  default [] (_topicHandlersMap b !! topic).

(** Behaviour of a function called as a topic handler, [h(data)], and as a
    wildcard handler, [h(topic, data)]: its completion, the bus it leaves
    behind and its effects on the bus. *)
Definition Behaviour (D : Type) : Type := Fn -> D -> t D -> Run (t D) (Event D).
Definition BehaviourW (D : Type) : Type := Fn -> string -> D -> t D -> Run (t D) (Event D).

Section Class.
Context {D : Type}.
Variable behave : Behaviour D.
Variable behaveW : BehaviourW D.

(** [on(topic, handler)] *)
Definition on (topic : string) (handler : Fn) (b : t D) : Run (t D) (Event D) :=
  let b1 :=
    match _topicHandlersMap b !! topic with
    | Some handlers =>
        with_topicHandlersMap (<[topic := handlers ++ [handler]]> (_topicHandlersMap b)) b
    | None =>
        with_topicHandlersMap (<[topic := [handler]]> (_topicHandlersMap b)) b
    end in
  match _eventCache b1 !! topic with
  | Some entry =>
      let r := behave handler (data entry) b1 in
      mkRun (completion r) (world r) [HandlerCall handler (data entry) (trace r)]
  | None => mkRun Returned b1 []
  end.

(** [off(topic, handler)]: [indexOf(handler) >>> 0] is past the end when the
    handler is absent, and [splice] then removes nothing. *)
Definition off (topic : string) (handler : Fn) (b : t D) : t D :=
  match _topicHandlersMap b !! topic with
  | Some handlers =>
      let handlers' :=
        match indexOf handler handlers with
        | Some i => splice1 i handlers
        | None => handlers
        end in
      with_topicHandlersMap (<[topic := handlers']> (_topicHandlersMap b)) b
  | None => b
  end.


(** [offAll(handler)] *)
Definition offAll (handler : Fn) (b : t D) : t D :=
  match indexOf handler (_wildcardHandlers b) with
  | Some handlerIndex => with_wildcardHandlers (splice1 handlerIndex (_wildcardHandlers b)) b
  | None => b
  end.

(** One turn of the first loop of [pub]: [try { handlers[i](data) }
    catch (error) { console.error(...) }]. *)
Definition topic_step (topic : string) (d : D) (i : nat) (b : t D) : t D * list (Event D) :=
  match handlers_of topic b !! i with
  | Some h =>
      let r := behave h d b in
      (world r,
       HandlerCall h d (trace r) ::
       match completion r with Returned => [] | Thrown e => [ErrorLogged e] end)
  | None => (b, [ErrorLogged TypeError])
  end.

(** [for (let i = 0; i < len; i++)], with [n] turns left. *)
Fixpoint topic_loop (topic : string) (d : D) (n i : nat) (b : t D) : t D * list (Event D) :=
  match n with
  | O => (b, [])
  | S n' =>
      let '(b1, t1) := topic_step topic d i b in
      let '(b2, t2) := topic_loop topic d n' (S i) b1 in
      (b2, t1 ++ t2)
  end.

(** The second loop of [pub]: [this._wildcardHandlers[i](topic, data)] is
    not guarded, an error leaves the loop and [pub]. *)
Fixpoint wildcard_loop (topic : string) (d : D) (n i : nat) (b : t D) : Run (t D) (Event D) :=
  match n with
  | O => mkRun Returned b []
  | S n' =>
      match _wildcardHandlers b !! i with
      | Some h =>
          let r1 := behaveW h topic d b in
          match completion r1 with
          | Returned =>
              let r := wildcard_loop topic d n' (S i) (world r1) in
              mkRun (completion r) (world r) (WildcardCall h topic d (trace r1) :: trace r)
          | Thrown e => mkRun (Thrown e) (world r1) [WildcardCall h topic d (trace r1)]
          end
      | None => mkRun (Thrown TypeError) b []
      end
  end.

(** [syncEvent(topic, data, isCached)] hands the event to the adapter. *)
Definition syncEvent (topic : string) (d : D) (isCached : bool) : list (Event D) :=
  [SendEvent topic d isCached].

(** [if (isCached) this._eventCache.set(topic, { data: data, synced: sync })] *)
Definition cache_event (topic : string) (d : D) (sync isCached : bool) (b : t D)
  : t D * list (Event D) :=
  if isCached then
    let entry := mkEntry d sync in
    (with_eventCache (<[topic := entry]> (_eventCache b)) b, [CacheSet topic entry])
  else (b, []).

(** [pub(topic, data, sync, isCached)] with both flags given. *)
Definition pub (topic : string) (d : D) (sync isCached : bool) (b : t D)
  : Run (t D) (Event D) :=
  let '(b1, t1) := cache_event topic d sync isCached b in
  let '(b2, t2) :=
    match _topicHandlersMap b1 !! topic with
    | Some handlers => topic_loop topic d (length handlers) 0 b1
    | None => (b1, [])
    end in
  let t3 := if sync then syncEvent topic d isCached else [] in
  let wcLen := length (_wildcardHandlers b2) in
  let r := wildcard_loop topic d wcLen 0 b2 in
  mkRun (completion r) (world r) (t1 ++ t2 ++ t3 ++ trace r).

(** [pub(topic, data, sync = false, isCached = true)] as a caller sees it:
    an omitted or [undefined] flag takes its default. *)
Definition pub_js (topic : string) (d : D) (sync isCached : option bool) (b : t D)
  : Run (t D) (Event D) :=
  pub topic d (or_default false sync) (or_default true isCached) b.

End Class.

(** The topic handlers and the wildcard handlers invoked by an operation
    itself, not by the callbacks it ran. *)
Definition handler_calls {D} (tr : list (Event D)) : list Fn :=
  omap (fun ev => match ev with HandlerCall h _ _ => Some h | _ => None end) tr.

Definition wildcard_calls {D} (tr : list (Event D)) : list Fn :=
  omap (fun ev => match ev with WildcardCall h _ _ _ => Some h | _ => None end) tr.

(** The effects of an operation itself, without what its callbacks did. *)
Definition surface_event {D} (ev : Event D) : Event D :=
  match ev with
  | HandlerCall h d _ => HandlerCall h d []
  | WildcardCall h topic d _ => WildcardCall h topic d []
  | _ => ev
  end.

Definition surface {D} (tr : list (Event D)) : list (Event D) := map surface_event tr.


Arguments handler_calls : simpl never.
Arguments wildcard_calls : simpl never.

(** The two handler registries of a bus. *)
Definition registry {D} (b : t D) : gmap string (list Fn) * list Fn :=
  (_topicHandlersMap b, _wildcardHandlers b).

(** [resyncEvents()]: [syncEvent(topic, event.data, true)] for every cache
    entry with [synced].  The source goes through the cache in the order
    the topics were first cached, which the finite map does not record: of
    this list only the events in it are meant, not their order. *)
Definition resyncEvents {D} (b : t D) : list (Event D) :=
  flat_map (fun te => if synced te.2 then syncEvent te.1 (data te.2) true else [])
           (map_to_list (_eventCache b)).

(** The cache writes of an operation: topic and data. *)
Definition cache_writes {D} (tr : list (Event D)) : list (string * D) :=
  omap (fun ev => match ev with CacheSet t e => Some (t, data e) | _ => None end) tr.

Arguments cache_writes : simpl never.

End EventBus.

(** ** Synchronization adapters (lines 1233-1315) *)

(** A call of [recvEventCb], which is [pub] bound to the owning bus. *)
Record RecvCall (D : Type) : Type := mkRecv {
  rc_topic : string;
  rc_data : D;
  rc_sync : option bool;
  rc_isCached : option bool
}.

(** [recvEventCb(...)] on the owning bus. *)
Definition recvEventCb {D} (behave : EventBus.Behaviour D) (behaveW : EventBus.BehaviourW D)
    (c : RecvCall D) (b : EventBus.t D) : Run (EventBus.t D) (EventBus.Event D) :=
  EventBus.pub_js behave behaveW (rc_topic c) (rc_data c) (rc_sync c) (rc_isCached c) b.

(** [s.split(',')] *)
Fixpoint split_comma (s : string) : list string :=
  match s with
  | EmptyString => [EmptyString]
  | String c s' =>
      if Ascii.eqb c ","%char then EmptyString :: split_comma s'
      else match split_comma s' with
           | [] => [String c EmptyString]
           | w :: ws => String c w :: ws
           end
  end.

Module EventBusStorageSync.

Definition EMPTY_DATA : string := "{}".
Definition EB_KEY : string := "eb.evt".

(** A [storage] event: [e.key] and [e.newValue] are strings or [null]. *)
Record StorageEvent : Type := mkStorageEvent {
  key : option string;
  newValue : option string
}.

Inductive StorageEffect : Type :=
| SetItem (k v : string)
| RemoveItem (k : string).

Section Class.
(** JSON values; [None] as data stands for [undefined]. *)
Context {Json : Type}.
Variable JSON_stringify : Json -> string.
Variable JSON_parse : string -> option Json.

(** [sendEvent(topic, data)] *)
Definition sendEvent (topic : string) (d : option Json) : list StorageEffect :=
  [SetItem EB_KEY
     (topic ++ "," ++ match d with Some j => JSON_stringify j | None => EMPTY_DATA end);
   RemoveItem EB_KEY].

(** [receiveEvent(e)]: the calls of [recvEventCb] it makes; [JSON.parse]
    throws on malformed text. *)
Definition receiveEvent (e : StorageEvent) : Completion * list (RecvCall (option Json)) :=
  match key e, newValue e with
  | Some k, Some v =>
      if String.eqb k EB_KEY && negb (String.eqb v "") then
        let val := split_comma v in
        let topic := default "" (val !! 0%nat) in
        if (1 <? length val)%nat then
          match JSON_parse (default "" (val !! 1%nat)) with
          | Some j => (Returned, [mkRecv topic (Some j) (Some true) None])
          | None => (Thrown SyntaxError, [])
          end
        else (Returned, [mkRecv topic None (Some true) None])
      else (Returned, [])
  | _, _ => (Returned, [])
  end.

End Class.
End EventBusStorageSync.

Module EventBusCoherentSync.

Definition EB_KEY : string := "eb.evt".

(** The message sent over the channel. *)
Record Msg (D : Type) : Type := mkMsg {
  topic : string;
  data : D;
  isCached : option bool;
  msg_busId : Z;
  msg_evtNum : Z
}.

Record t : Type := mk {
  evtNum : Z;
  lastEventSynced : Z;
  busId : Z
}.

(** [new EventBusCoherentSync(recvEventCb, busId)] *)
Definition create (busId : Z) : t := mk 0 (-1) busId.

Section Class.
Context {D : Type}.

(** [sendEvent(topic, data, isCached)]: the message handed to
    [triggerToAllSubscribers], and [this.evtNum++]. *)
Definition sendEvent (topic : string) (d : D) (isCached : option bool) (a : t) : t * Msg D :=
  (mk (evtNum a + 1) (lastEventSynced a) (busId a),
   mkMsg topic d isCached (busId a) (evtNum a)).

(** [receiveEvent(e)]: the new adapter state and the calls of [recvEventCb]. *)
Definition receiveEvent (e : Msg D) (a : t) : t * list (RecvCall D) :=
  if (msg_busId e =? busId a)%Z then (a, [])
  else if negb (lastEventSynced a =? msg_evtNum e)%Z then
    (mk (evtNum a) (msg_evtNum e) (busId a),
     [mkRecv (topic e) (data e) None (isCached e)])
  else (a, []).

End Class.
End EventBusCoherentSync.

(** ** MappedSubject (lines 196-273) *)

Module MappedSubject.

Record t (V : Type) : Type := mk {
  mapFunc : list V -> option V -> V;    (* [(inputs, previousVal) => ...] *)
  equalityFunc : V -> V -> bool;
  inputs : list nat;                    (* the input subscribables, by address *)
  inputValues : list V;
  value : V;
  mutateFunc : option (V -> V -> V);    (* [Some f]: built with [initialVal && mutateFunc] *)
  inputHandlers : list Fn;              (* [this.updateValue.bind(this, index)] *)
  subs : list Fn
}.

(** The objects a mapped subject can reach: its inputs, held in a store of
    subjects, and itself. *)
Record World (V : Type) : Type := mkWorld {
  store : nat -> Subject.t V;
  mapped : t V
}.

Definition with_store {V} (f : nat -> Subject.t V) (w : World V) : World V :=
  mkWorld f (mapped w).

Definition with_mapped {V} (m : t V) (w : World V) : World V :=
  mkWorld (store w) m.

Definition with_value {V} (v : V) (m : t V) : t V :=
  mk (mapFunc m) (equalityFunc m) (inputs m) (inputValues m) v (mutateFunc m)
     (inputHandlers m) (subs m).

Definition with_inputValues {V} (l : list V) (m : t V) : t V :=
  mk (mapFunc m) (equalityFunc m) (inputs m) l (value m) (mutateFunc m)
     (inputHandlers m) (subs m).

(** Identity of the mapped subject and of the subject at address [k]. *)
Definition self : Obj := 0%nat.
Definition input_obj (k : nat) : Obj := S k.

(** Reading and writing the subject at address [k]. *)
Definition getS {V} (k : nat) (w : World V) : Subject.t V := store w k.

Definition putS {V} (k : nat) (s : Subject.t V) (w : World V) : World V :=
  with_store (fun j => if Nat.eqb j k then s else store w j) w.

Section Class.
Context {V : Type}.
(** Subscribers other than the input handlers are observers: they return or
    throw and leave the world as it is. *)
Variable observe : Fn -> V -> Completion.

Definition call_observer (f : Fn) (v : V) (w : World V) : Run (World V) (SubEvent V) :=
  mkRun (observe f v) w [].

(** [get()] *)
Definition get (w : World V) : V := value (mapped w).

(** [notify()], inherited. *)
Definition notify (w : World V) : Run (World V) (SubEvent V) :=
  AbstractSubscribable.notify self (fun w => subs (mapped w)) get call_observer w.

(** [sub(fn)], inherited. *)
Definition sub (fn : Fn) (w : World V) : World V :=
  with_mapped
    (mk (mapFunc (mapped w)) (equalityFunc (mapped w)) (inputs (mapped w))
        (inputValues (mapped w)) (value (mapped w)) (mutateFunc (mapped w))
        (inputHandlers (mapped w)) (subs (mapped w) ++ [fn])) w.

(** [updateValue(index)]; [index] is one the constructor bound, within
    [inputValues]. *)
Definition updateValue (index : nat) (w : World V) : Run (World V) (SubEvent V) :=
  let this := mapped w in
  match inputs this !! index with
  | None => mkRun (Thrown TypeError) w []
  | Some k =>
      let this1 := with_inputValues (<[index := Subject.value (store w k)]> (inputValues this)) this in
      let v := mapFunc this1 (inputValues this1) (Some (value this1)) in
      if negb (equalityFunc this1 (value this1) v) then
        let this2 :=
          match mutateFunc this1 with
          | Some mutate => with_value (mutate (value this1) v) this1
          | None => with_value v this1
          end in
        notify (with_mapped this2 w)
      else mkRun Returned (with_mapped this1 w) []
  end.

(** A function called by an input subject: an input handler runs
    [updateValue] with its bound index, any other function is an observer. *)
Definition call (f : Fn) (v : V) (w : World V) : Run (World V) (SubEvent V) :=
  match indexOf f (inputHandlers (mapped w)) with
  | Some index => updateValue index w
  | None => call_observer f v w
  end.

(** [inputs[i].sub(this.inputHandlers[i])] over the two arrays. *)
Fixpoint subscribe_inputs (ins : list nat) (hs : list Fn) (w : World V) : World V :=
  match ins, hs with
  | k :: ins', h :: hs' =>
      subscribe_inputs ins' hs'
        (world (Subject.sub (input_obj k) (getS k) (putS k) call h false w))
  | _, _ => w
  end.

(** [if (initialVal && mutateFunc)]: both arguments are given and
    [initialVal] is not one of the values a condition takes for false ([0],
    [''], [false], [null], [NaN]); [truthy] tells which values are not. *)
Definition initial_and_mutate (truthy : V -> bool) (initialVal : option V)
    (mutateFunc : option (V -> V -> V)) : option (V * (V -> V -> V)) :=
  match initialVal, mutateFunc with
  | Some v0, Some mutate => if truthy v0 then Some (v0, mutate) else None
  | _, _ => None
  end.

(** [new MappedSubject(mapFunc, equalityFunc, mutateFunc, initialVal, ...inputs)];
    [handlers] are the function objects [bind] creates. *)
Definition create (truthy : V -> bool)
    (mapFunc : list V -> option V -> V) (equalityFunc : V -> V -> bool)
    (mutateFunc : option (V -> V -> V)) (initialVal : option V)
    (ins : list nat) (handlers : list Fn) (subjects : nat -> Subject.t V) : World V :=
  let inputValues := map (fun k => Subject.value (subjects k)) ins in
  let this :=
    match initial_and_mutate truthy initialVal mutateFunc with
    | Some (v0, mutate) =>
        mk mapFunc equalityFunc ins inputValues (mutate v0 (mapFunc inputValues None))
           (Some mutate) handlers []
    | None =>
        mk mapFunc equalityFunc ins inputValues (mapFunc inputValues None)
           None handlers []
    end in
  subscribe_inputs ins handlers (mkWorld subjects this).

(** [this.inputs[i].unsub(this.inputHandlers[i])] over the two arrays. *)
Fixpoint unsubscribe_inputs (ins : list nat) (hs : list Fn) (w : World V) : World V :=
  match ins, hs with
  | k :: ins', h :: hs' =>
      unsubscribe_inputs ins' hs' (Subject.unsub (getS k) (putS k) h w)
  | _, _ => w
  end.

(** [destroy()] *)
Definition destroy (w : World V) : World V :=
  unsubscribe_inputs (inputs (mapped w)) (inputHandlers (mapped w)) w.

(** [set(x)] on the subject at address [k]. *)
Definition set_input (k : nat) (x : V) (w : World V) : Run (World V) (SubEvent V) :=
  Subject.set (input_obj k) (getS k) (putS k) call x w.

(** A sequence of changes of input subjects. *)
Fixpoint set_inputs (changes : list (nat * V)) (w : World V) : World V * list (SubEvent V) :=
  match changes with
  | [] => (w, [])
  | (k, x) :: rest =>
      let r := set_input k x w in
      let '(w', tr) := set_inputs rest (world r) in
      (w', trace r ++ tr)
  end.

End Class.

(** How often [f] is subscribed to the subject at address [k]. *)
Definition subscribed {V} (w : World V) (k : nat) (f : Fn) : nat :=
  count_occ Nat.eq_dec (Subject.subs (store w k)) f.

(** What the constructor establishes: there is an input handler for every
    input, and an input handler is subscribed at most once, to its own input
    only. *)
Definition well_subscribed {V} (w : World V) : Prop :=
  length (inputHandlers (mapped w)) = length (inputs (mapped w))
  /\ forall i f, inputHandlers (mapped w) !! i = Some f ->
       forall k, (subscribed w k f <= 1)%nat
                 /\ ((0 < subscribed w k f)%nat -> inputs (mapped w) !! i = Some k).

(** No input handler is subscribed anywhere. *)
Definition detached {V} (w : World V) : Prop :=
  forall k f, In f (inputHandlers (mapped w)) -> subscribed w k f = 0%nat.


(** The parts of a mapped subject that [updateValue] never writes. *)
Definition same_frame {V} (m m' : t V) : Prop :=
  mapFunc m' = mapFunc m /\ equalityFunc m' = equalityFunc m
  /\ mutateFunc m' = mutateFunc m /\ inputs m' = inputs m
  /\ inputHandlers m' = inputHandlers m /\ subs m' = subs m.



End MappedSubject.

(** Whether [o] notified a subscriber, at any depth of an effect. *)
Fixpoint notified_by {V : Type} (o : Obj) (ev : SubEvent V) : bool :=
  match ev with
  | Called s _ _ inner => Nat.eqb s o || existsb (notified_by o) inner
  | ConsoleError _ => false
  end.

(** ** Consumer (lines 906-1066) *)

Module Consumer.

Local Open Scope Q_scope.

(** A filter with the state object its consumer owns. *)
Inductive Stage : Type :=
| AtFrequency (deltaTimeTrigger : Q) (previousTime : Q)
| AtNoFrequency (previousTime : Q)   (* [deltaTimeTrigger] is [Infinity] *)
| WithPrecision (precision : Z) (lastValue : Q)
| WhenChangedBy (amount : Q) (lastValue : Q)
| OnlyAfter (deltaTime : Q) (previousTime : Q).

(** A consumer of numeric events: [Root] is [new Consumer(bus, topic)], with
    no [currentHandler]; [Filtered parent stage] is built by a method of
    [parent], which its [currentHandler] keeps as [this].  A value of this
    type is one chain with the state objects of its stages; every stage of a
    chain reads the same [Date.now()] for one event. *)
Inductive t : Type :=
| Root
| Filtered (parent : t) (stage : Stage).

Definition Qltb (a b : Q) : bool := negb (Qle_bool b a).

(** [Math.round(x)]: the nearest integer, halves upwards. *)
Definition Math_round (x : Q) : Z := Qfloor (x + (1 # 2)).

(** [Math.round(dataValue * multiplier) / multiplier] with
    [multiplier = Math.pow(10, precision)], product and quotient exact: the
    code rounds the binary64 product, which for a value at a half of the last
    place can fall on the other side. *)
Definition valueAtPrecision (precision : Z) (dataValue : Q) : Q :=
  let multiplier := Qpower (10 # 1) precision in
  inject_Z (Math_round (dataValue * multiplier)) / multiplier.

(** [atFrequency(frequency)], called when [Date.now()] is [now].  For the
    frequency 0, [1000 / frequency] is [Infinity]. *)
Definition atFrequency (frequency : Q) (now : Q) (this : t) : t :=
  if Qeq_bool frequency 0 then Filtered this (AtNoFrequency now)
  else Filtered this (AtFrequency (1000 / frequency) now).

(** [withPrecision(precision)] *)
Definition withPrecision (precision : Z) (this : t) : t :=
  Filtered this (WithPrecision precision 0).



(** [while ((state.previousTime + deltaTimeTrigger) < currentTime)
    state.previousTime += deltaTimeTrigger], with [fuel] turns allowed.  The
    sum is exact: in binary64 a period too small for the time is absorbed by
    it. *)
Fixpoint catch_up (fuel : nat) (deltaTimeTrigger currentTime previousTime : Q) : option Q :=
  if Qltb (previousTime + deltaTimeTrigger) currentTime then
    match fuel with
    | O => None
    | S fuel' => catch_up fuel' deltaTimeTrigger currentTime (previousTime + deltaTimeTrigger)
    end
  else Some previousTime.

(** [with(data, handler)], which is also what the function registered by
    [handle(handler)] does with an event [data] received when [Date.now()]
    is [currentTime]: the consumer's [currentHandler] runs on its state and
    passes on to [this.with] of its parent.  The result is the chain with
    its new states and the values [handler] was called with; [None] when the
    loop of [atFrequency] needs more than [fuel] turns. *)
Fixpoint with_ (fuel : nat) (currentTime : Q) (c : t) (data : Q) : option (t * list Q) :=
  match c with
  | Root => Some (Root, [data])
  | Filtered parent (AtFrequency deltaTimeTrigger previousTime) =>
      let deltaTime := currentTime - previousTime in
      if Qle_bool deltaTimeTrigger deltaTime then
        match catch_up fuel deltaTimeTrigger currentTime previousTime with
        | Some previousTime' =>
            match with_ fuel currentTime parent data with
            | Some (parent', out) =>
                Some (Filtered parent' (AtFrequency deltaTimeTrigger previousTime'), out)
            | None => None
            end
        | None => None
        end
      else Some (c, [])
  | Filtered parent (AtNoFrequency previousTime) =>
      (* [Infinity <= currentTime - state.previousTime] is false *)
      Some (c, [])
  | Filtered parent (WithPrecision precision lastValue) =>
      let currentValueAtPrecision := valueAtPrecision precision data in
      if negb (Qeq_bool currentValueAtPrecision lastValue) then
        match with_ fuel currentTime parent currentValueAtPrecision with
        | Some (parent', out) =>
            Some (Filtered parent' (WithPrecision precision currentValueAtPrecision), out)
        | None => None
        end
      else Some (c, [])
  | Filtered parent (WhenChangedBy amount lastValue) =>
      let diff := Qabs (data - lastValue) in
      if Qle_bool amount diff then
        match with_ fuel currentTime parent data with
        | Some (parent', out) => Some (Filtered parent' (WhenChangedBy amount data), out)
        | None => None
        end
      else Some (c, [])
  | Filtered parent (OnlyAfter deltaTime previousTime) =>
      let timeDiff := currentTime - previousTime in
      if Qltb deltaTime timeDiff then
        match with_ fuel currentTime parent data with
        | Some (parent', out) =>
            Some (Filtered parent' (OnlyAfter deltaTime (previousTime + deltaTime)), out)
        | None => None
        end
      else Some (c, [])
  end.

(** Events received one after the other, each with the time of its receipt;
    the values [handler] was called with are collected in order. *)
Fixpoint receive (fuel : nat) (events : list (Q * Q)) (c : t) : option (t * list Q) :=
  match events with
  | [] => Some (c, [])
  | (currentTime, data) :: rest =>
      match with_ fuel currentTime c data with
      | Some (c1, out1) =>
          match receive fuel rest c1 with
          | Some (c2, out2) => Some (c2, out1 ++ out2)
          | None => None
          end
      | None => None
      end
  end.



End Consumer.

(** ** Scenarios

    Concrete objects and callbacks, used to run the definitions above. *)

Module Scenario.

(** Callbacks that return and touch nothing. *)
Definition quiet {D} : EventBus.Behaviour D := fun h d b => mkRun Returned b [].

Definition quietW {D} : EventBus.BehaviourW D := fun h topic d b => mkRun Returned b [].

(** A bus with topic handlers 1, 2 on ["t"] and wildcard handlers 3, 4. *)
Definition bus : EventBus.t nat :=
  EventBus.mk {[ "t" := [1; 2]%nat ]} [3; 4]%nat ∅ 7.

(** Handler 1 is a one-shot handler: it calls [bus.off("t", <itself>)]. *)
Definition one_shot : EventBus.Behaviour nat := fun h d b =>
  if Nat.eqb h 1 then mkRun Returned (EventBus.off "t" 1%nat b) [] else mkRun Returned b [].




(** Handler 1 throws. *)
Definition throwing : EventBus.Behaviour nat := fun h d b =>
  if Nat.eqb h 1 then mkRun (Thrown (UserError 0)) b [] else mkRun Returned b [].

(** Wildcard handler 3 throws. *)
Definition throwingW : EventBus.BehaviourW nat := fun h topic d b =>
  if Nat.eqb h 3 then mkRun (Thrown (UserError 0)) b [] else mkRun Returned b [].

(** A subject holding 0 with subscribers 1 and 2. *)
Definition subject : Subject.t nat :=
  Subject.mk 0%nat Nat.eqb None [1; 2]%nat.

Definition quiet_sub {V} (f : Fn) (v : V) (s : Subject.t V) : Run (Subject.t V) (SubEvent V) :=
  mkRun Returned s [].

(** Subscriber 1 is a one-shot subscriber: it calls [subject.unsub(<itself>)]. *)
Definition one_shot_sub (f : Fn) (v : nat) (s : Subject.t nat)
  : Run (Subject.t nat) (SubEvent nat) :=
  if Nat.eqb f 1 then mkRun Returned (Subject.unsub Subject.this Subject.put_this 1%nat s) []
  else mkRun Returned s [].


(** Subscriber 1 subscribes another function: [subject.sub(<5>)]. *)
Definition adding_sub (f : Fn) (v : nat) (s : Subject.t nat)
  : Run (Subject.t nat) (SubEvent nat) :=
  if Nat.eqb f 1 then Subject.sub 0%nat Subject.this Subject.put_this quiet_sub 5%nat false s
  else mkRun Returned s [].

(** A computed subject with subscribers 1 and 2, the first of which throws. *)
Definition computed : ComputedSubject.t nat bool :=
  ComputedSubject.mk Nat.even [1; 2]%nat 0%nat true.

Definition throwing_sub (f : Fn) (c : bool) (raw : nat) (s : ComputedSubject.t nat bool)
  : Completion * ComputedSubject.t nat bool :=
  if Nat.eqb f 1 then (Thrown (UserError 0), s) else (Returned, s).

(** A JSON reader that knows the text ["1"]. *)
Definition parse_one (s : string) : option nat :=
  if String.eqb s "1" then Some 1%nat else None.

(** The storage event another window sees after [sendEvent("x", 1)]. *)
Definition storage_event : EventBusStorageSync.StorageEvent :=
  EventBusStorageSync.mkStorageEvent (Some "eb.evt") (Some "x,1").

(** A bus over optional JSON data without handlers. *)
Definition json_bus : EventBus.t (option nat) := EventBus.mk ∅ [] ∅ 7.

(** A channel adapter of bus 7 that last processed message 3, and a message
    of bus 8. *)
Definition adapter : EventBusCoherentSync.t := EventBusCoherentSync.mk 0 3 7.

Definition message (busId evtNum : Z) : EventBusCoherentSync.Msg nat :=
  EventBusCoherentSync.mkMsg "x" 1%nat (Some true) busId evtNum.

(** Two subjects at addresses 0 and 1 holding 1 and 2, every other address
    holding 0; a mapped subject summing the first two, with input handlers
    10 and 11. *)
Definition subjects (k : nat) : Subject.t nat :=
  Subject.mk (match k with 0 => 1 | 1 => 2 | _ => 0 end)%nat Nat.eqb None [].

Definition sum_inputs (vs : list nat) (previous : option nat) : nat := list_sum vs.

Definition observer (f : Fn) (v : nat) : Completion := Returned.

(** A number in a condition: every number but 0. *)
Definition truthy (n : nat) : bool := negb (Nat.eqb n 0).

Definition sum_world : MappedSubject.World nat :=
  MappedSubject.sub 20%nat
    (MappedSubject.create observer truthy sum_inputs Nat.eqb None None
       [0; 1]%nat [10; 11]%nat subjects).

End Scenario.

(** ** Publishers (lines 1320-1447) *)

Module BasePublisher.

Record t (D : Type) : Type := mk {
  publishActive : bool;
  pacer : option (string -> D -> bool)   (* [pacer.canPublish] *)
}.

(** [new BasePublisher(bus, pacer)] *)
Definition create {D} (pacer : option (string -> D -> bool)) : t D := mk false pacer.

(** [startPublish()], [stopPublish()] *)
Definition startPublish {D} (p : t D) : t D := mk true (pacer p).
Definition stopPublish {D} (p : t D) : t D := mk false (pacer p).

Section Class.
Context {D : Type}.
Variable behave : EventBus.Behaviour D.
Variable behaveW : EventBus.BehaviourW D.

(** [publish(topic, data, sync = false, isCached = true)] on the bus of the
    publisher. *)
Definition publish (topic : string) (d : D) (sync isCached : option bool) (p : t D)
    (b : EventBus.t D) : Run (EventBus.t D) (EventBus.Event D) :=
  if publishActive p
     && match pacer p with
        | None => true
        | Some canPublish => canPublish topic d
        end
  then EventBus.pub behave behaveW topic d (or_default false sync) (or_default true isCached) b
  else mkRun Returned b [].

End Class.
End BasePublisher.

Module HEventPublisher.
Section Class.
Context {D : Type}.
Variable behave : EventBus.Behaviour D.
Variable behaveW : EventBus.BehaviourW D.

(** [dispatchHEvent(hEvent, sync = false)] *)
Definition dispatchHEvent (hEvent : D) (sync : option bool) (p : BasePublisher.t D)
    (b : EventBus.t D) : Run (EventBus.t D) (EventBus.Event D) :=
  BasePublisher.publish behave behaveW "hEvent" hEvent
    (Some (or_default false sync)) (Some false) p b.

End Class.
End HEventPublisher.

Module SimVarPublisher.

(** A [SimVarDefinition]. *)
Record SimVarDefinition : Type := mkDef {
  name : string;
  type : string
}.

Record t (D : Type) : Type := mk {
  base : BasePublisher.t D;
  simvars : gmap string SimVarDefinition;
  subscribed : list string   (* a [Set], in insertion order *)
}.

(** [new SimVarPublisher(simVarMap, bus, pacer)] *)
Definition create {D} (simVarMap : gmap string SimVarDefinition)
    (pacer : option (string -> D -> bool)) : t D :=
  mk (BasePublisher.create pacer) simVarMap [].


(** [unsubscribe(data)]: [Set.delete] *)
Definition unsubscribe {D} (key : string) (p : t D) : t D :=
  mk (base p) (simvars p) (filter (fun k => k <> key) (subscribed p)).

(** [updateSimVarSource(key, value)] *)
Definition updateSimVarSource {D} (key : string) (def : SimVarDefinition) (p : t D) : t D :=
  mk (base p) (<[key := def]> (simvars p)) (subscribed p).

Definition startPublish {D} (p : t D) : t D :=
  mk (BasePublisher.startPublish (base p)) (simvars p) (subscribed p).

Definition stopPublish {D} (p : t D) : t D :=
  mk (BasePublisher.stopPublish (base p)) (simvars p) (subscribed p).

Section Class.
Context {D : Type}.
(** [SimVar.GetSimVarValue(name, type)], of the simulator; [None] is
    [undefined]. *)
Variable GetSimVarValue : string -> string -> option D.
Variable behave : EventBus.Behaviour D.
Variable behaveW : EventBus.BehaviourW D.




End Class.
End SimVarPublisher.

(** ** SaltyIRS (lines 1-54) *)

Module SaltyIRS.

Local Open Scope Q_scope.

(** What [update] reads from the simulator: the three IRS knobs, the
    latitude in degrees, [Math.abs(lat * 180 / Math.PI)], and the cosine of
    the latitude, [latitudeFactor]. *)
Record Readings : Type := mkReadings {
  knob1 : Z;
  knob2 : Z;
  knob3 : Z;
  latitude : Q;
  latitudeFactor : Q
}.

(** The object and the two variables it writes. *)
Record t : Type := mk {
  irsTimer : Q;
  lastTime : option Q;
  SALTY_IRS_STATE : Z;
  SALTY_IRS_TIME_LEFT : Q
}.

(** [init()] on an object whose [lastTime] is not set yet. *)
Definition init (state : Z) (timeLeft : Q) : t := mk (-1) None state timeLeft.

Definition isIRSOn (r : Readings) : bool :=
  (1 <=? knob1 r)%Z && (1 <=? knob2 r)%Z && (1 <=? knob3 r)%Z.

Definition isSomeIRSOn (r : Readings) : bool :=
  (1 <=? knob1 r)%Z || (1 <=? knob2 r)%Z || (1 <=? knob3 r)%Z.

Definition Qltb (a b : Q) : bool := negb (Qle_bool b a).

(** The time an alignment takes, in seconds, chosen when it starts. *)
Definition alignTime (r : Readings) : Q :=
  if Qltb (latitude r) (702 # 10) then 600
  else if Qle_bool (702 # 10) (latitude r) && Qltb (latitude r) (782 # 10) then 1020
  else 1020 * (1 + 1 / latitudeFactor r).

Section Timer.

(** [this.irsTimer - deltaTime / 1000] as the machine computes it: a
    parameter, so that what is proved of [update] holds for the rounded
    difference as well as for the exact one. *)
Variable elapse : Q -> Q -> Q.

(** [update(electricityIsAvail)] when [Date.now()] is [timeNow]. *)
Definition update (electricityIsAvail : bool) (timeNow : Q) (r : Readings) (s : t) : t :=
  let lastTime0 := match lastTime s with Some l => l | None => timeNow end in
  let deltaTime := timeNow - lastTime0 in
  let s := mk (irsTimer s) (Some timeNow) (SALTY_IRS_STATE s) (SALTY_IRS_TIME_LEFT s) in
  if negb electricityIsAvail then s
  else
    let s := mk (irsTimer s) (lastTime s) (SALTY_IRS_STATE s) (irsTimer s) in
    let s :=
      if negb (isSomeIRSOn r) && negb (SALTY_IRS_STATE s =? 0)%Z
      then mk (irsTimer s) (lastTime s) 0 (SALTY_IRS_TIME_LEFT s)
      else s in
    let s :=
      if isIRSOn r && (SALTY_IRS_STATE s =? 0)%Z
      then mk (alignTime r) (lastTime s) 1 (SALTY_IRS_TIME_LEFT s)
      else s in
    if (SALTY_IRS_STATE s =? 1)%Z then
      if Qltb 0 (irsTimer s) then
        let timer := elapse (irsTimer s) deltaTime in
        if Qle_bool timer 0
        then mk (-1) (lastTime s) 2 (SALTY_IRS_TIME_LEFT s)
        else mk timer (lastTime s) (SALTY_IRS_STATE s) (SALTY_IRS_TIME_LEFT s)
      else s
    else s.

(** A sequence of updates, each with its power flag, the time it is made at
    and what it reads. *)
Fixpoint run (steps : list (bool * Q * Readings)) (s : t) : t :=
  match steps with
  | [] => s
  | (electricityIsAvail, timeNow, r) :: rest =>
      run rest (update electricityIsAvail timeNow r s)
  end.

End Timer.

(** The difference without rounding. *)
Definition exact_elapse (timer deltaTime : Q) : Q := timer - deltaTime / 1000.

(** The state variable and the timer agree: an alignment that is running has
    time left, and a finished one shows -1. *)
Definition consistent (s : t) : Prop :=
  SALTY_IRS_STATE s = 0%Z
  \/ (SALTY_IRS_STATE s = 1%Z /\ 0 < irsTimer s)
  \/ (SALTY_IRS_STATE s = 2%Z /\ irsTimer s = -1).

End SaltyIRS.

(** ** Scale functions of the display (lines 2061-2067, 2170-2180) *)

Module Display.

Local Open Scope Q_scope.

Definition Qltb (a b : Q) : bool := negb (Qle_bool b a).

(** [Math.min], [Math.max] *)
Definition Math_min (a b : Q) : Q := if Qle_bool a b then a else b.
Definition Math_max (a b : Q) : Q := if Qle_bool a b then b else a.

(** [getHeadingDelta(heading1, heading2)] *)
Definition getHeadingDelta (heading1 heading2 : Q) : Q :=
  let headingDelta := heading1 - heading2 in
  if Qltb 180 headingDelta then headingDelta - 360
  else if Qltb headingDelta (-180) then headingDelta + 360
  else headingDelta.

(** [getDriftAngle(heading, track)] *)
Definition getDriftAngle (heading track : Q) : Q := getHeadingDelta heading track * -1.

(** [VerticalSpeedIndicator.fpmToPixels(fpm)] *)
Definition fpmToPixels (fpm : Q) : Q :=
  let seg1 := (8 # 100) * Math_min (Qabs fpm) 1000 in
  let seg2 := (6 # 100) * Math_min (Math_max (Qabs fpm - 1000) 0) 1000 in
  let seg3 := (1 # 100) * Math_max (Qabs fpm - 2000) 0 in
  let pixels := if Qltb 6000 fpm || Qltb fpm (-6000) then 180 else seg1 + seg2 + seg3 in
  if Qltb 0 fpm then - pixels else pixels.

End Display.

(** ** More scenarios *)

Module Cases.

(** Property values: [undefined], numbers and [NaN], with [===]. *)
Inductive Field : Type :=
| Undefined
| Number (n : nat)
| NaN.

Definition strict_equal (x y : Field) : bool :=
  match x, y with
  | Undefined, Undefined => true
  | Number n, Number m => Nat.eqb n m
  | _, _ => false
  end.






(** All knobs on, at 50 degrees of latitude. *)
Definition readings : SaltyIRS.Readings :=
  SaltyIRS.mkReadings 1 1 1 50 (64 # 100).

(** All knobs off, at the same place. *)
Definition knobs_off : SaltyIRS.Readings :=
  SaltyIRS.mkReadings 0 0 0 50 (64 # 100).

End Cases.

(** * Properties *)

(** ** Event bus: replay on subscribe *)

(** The bus on which [on] replays: the handler is the last of its topic, and
    nothing else differs from the bus before. *)
Lemma on_spec {D : Type} (behave : EventBus.Behaviour D) (topic : string) (handler : Fn)
    (b : EventBus.t D) :
  exists b1 : EventBus.t D,
    EventBus.handlers_of topic b1 = EventBus.handlers_of topic b ++ [handler]
    /\ (forall topic', topic' <> topic ->
          EventBus.handlers_of topic' b1 = EventBus.handlers_of topic' b)
    /\ EventBus._wildcardHandlers b1 = EventBus._wildcardHandlers b
    /\ EventBus._eventCache b1 = EventBus._eventCache b
    /\ EventBus.on behave topic handler b
       = match EventBus._eventCache b !! topic with
         | Some entry =>
             let r := behave handler (EventBus.data entry) b1 in
             mkRun (completion r) (world r)
               [EventBus.HandlerCall handler (EventBus.data entry) (trace r)]
         | None => mkRun Returned b1 []
         end.
Proof.
  unfold EventBus.on.
  set (b1 := match EventBus._topicHandlersMap b !! topic with
             | Some handlers => _
             | None => _
             end).
  exists b1.
  assert (Hc : EventBus._eventCache b1 = EventBus._eventCache b).
  { subst b1. destruct (EventBus._topicHandlersMap b !! topic); reflexivity. }
  split.
  { subst b1. unfold EventBus.handlers_of.
    destruct (EventBus._topicHandlersMap b !! topic); cbn; by rewrite lookup_insert_eq. }
  split.
  { intros topic' Hne. subst b1. unfold EventBus.handlers_of.
    destruct (EventBus._topicHandlersMap b !! topic); cbn; by rewrite lookup_insert_ne. }
  split.
  { subst b1. destruct (EventBus._topicHandlersMap b !! topic); reflexivity. }
  split; [exact Hc|].
  rewrite Hc. destruct (EventBus._eventCache b !! topic); reflexivity.
Qed.

(** C3.  [on(topic, handler)] first puts the handler last in the array of
    the topic and touches nothing else.  When the cache has an entry for the
    topic, [on] then runs the handler, once, on that bus and with the cached
    data: what the handler does to the bus is what [on] leaves, what it
    throws is what [on] throws, and the call with its effects is the whole
    trace of [on].  When the cache has no entry, [on] calls nothing and
    returns. *)
Theorem on_replays_cached_value :
  forall (D : Type) (behave : EventBus.Behaviour D)
         (topic : string) (handler : Fn) (b : EventBus.t D),
  exists b1 : EventBus.t D,
    EventBus.handlers_of topic b1 = EventBus.handlers_of topic b ++ [handler]
    /\ (forall topic', topic' <> topic ->
          EventBus.handlers_of topic' b1 = EventBus.handlers_of topic' b)
    /\ EventBus._wildcardHandlers b1 = EventBus._wildcardHandlers b
    /\ EventBus._eventCache b1 = EventBus._eventCache b
    /\ EventBus.on behave topic handler b
       = match EventBus._eventCache b !! topic with
         | Some entry =>
             let r := behave handler (EventBus.data entry) b1 in
             mkRun (completion r) (world r)
               [EventBus.HandlerCall handler (EventBus.data entry) (trace r)]
         | None => mkRun Returned b1 []
         end.
Proof.
  intros D behave topic handler b. unfold EventBus.on.
  set (b1 := match EventBus._topicHandlersMap b !! topic with
             | Some handlers => _
             | None => _
             end).
  exists b1.
  assert (Hmap : EventBus._topicHandlersMap b1
                 = <[topic := EventBus.handlers_of topic b ++ [handler]]>
                     (EventBus._topicHandlersMap b)).
  { subst b1. unfold EventBus.handlers_of.
    destruct (EventBus._topicHandlersMap b !! topic); reflexivity. }
  assert (Hrest : EventBus._wildcardHandlers b1 = EventBus._wildcardHandlers b
                  /\ EventBus._eventCache b1 = EventBus._eventCache b).
  { subst b1. destruct (EventBus._topicHandlersMap b !! topic); by split. }
  destruct Hrest as [Hw Hc].
  split; [unfold EventBus.handlers_of at 1; by rewrite Hmap, lookup_insert_eq|].
  split.
  { intros topic' Hne. unfold EventBus.handlers_of at 1.
    by rewrite Hmap, lookup_insert_ne. }
  split; [exact Hw|]. split; [exact Hc|].
  rewrite Hc. destruct (EventBus._eventCache b !! topic); reflexivity.
Qed.


(** ** Channel relay: self echoes and repeats *)

(** C6.  The channel adapter makes no call of [recvEventCb] for a message
    that carries its own bus id, nor for one whose sequence number is that of
    the last message it processed; for any other message it makes exactly one
    call, with the topic, data and [isCached] of the message and no [sync]
    argument, and remembers the sequence number. *)
Theorem coherent_receive_filters :
  forall (D : Type) (e : EventBusCoherentSync.Msg D) (a : EventBusCoherentSync.t),
    (EventBusCoherentSync.msg_busId e = EventBusCoherentSync.busId a ->
       EventBusCoherentSync.receiveEvent e a = (a, []))
    /\ (EventBusCoherentSync.msg_evtNum e = EventBusCoherentSync.lastEventSynced a ->
       EventBusCoherentSync.receiveEvent e a = (a, []))
    /\ (EventBusCoherentSync.msg_busId e <> EventBusCoherentSync.busId a ->
        EventBusCoherentSync.msg_evtNum e <> EventBusCoherentSync.lastEventSynced a ->
        EventBusCoherentSync.receiveEvent e a =
          (EventBusCoherentSync.mk (EventBusCoherentSync.evtNum a)
             (EventBusCoherentSync.msg_evtNum e) (EventBusCoherentSync.busId a),
           [mkRecv (EventBusCoherentSync.topic e) (EventBusCoherentSync.data e)
              None (EventBusCoherentSync.isCached e)])).
Proof.
  intros D e a. unfold EventBusCoherentSync.receiveEvent.
  repeat split.
  - intros ->. rewrite Z.eqb_refl. reflexivity.
  - intros ->. rewrite Z.eqb_refl. cbn.
    destruct (_ =? _)%Z; reflexivity.
  - intros Hb He.
    destruct (Z.eqb_spec (EventBusCoherentSync.msg_busId e) (EventBusCoherentSync.busId a));
      [contradiction|].
    destruct (Z.eqb_spec (EventBusCoherentSync.lastEventSynced a)
                (EventBusCoherentSync.msg_evtNum e)); [congruence|].
    reflexivity.
Qed.

Lemma coherent_receive_filters_witness :
  EventBusCoherentSync.receiveEvent (Scenario.message 7 9) Scenario.adapter
    = (Scenario.adapter, [])
  /\ EventBusCoherentSync.receiveEvent (Scenario.message 8 3) Scenario.adapter
    = (Scenario.adapter, [])
  /\ EventBusCoherentSync.receiveEvent (Scenario.message 8 4) Scenario.adapter
    = (EventBusCoherentSync.mk 0 4 7, [mkRecv "x" 1%nat None (Some true)]).
Proof.
  destruct (coherent_receive_filters (Scenario.message 7 9) Scenario.adapter) as (H1 & _ & _).
  destruct (coherent_receive_filters (Scenario.message 8 3) Scenario.adapter) as (_ & H2 & _).
  destruct (coherent_receive_filters (Scenario.message 8 4) Scenario.adapter) as (_ & _ & H3).
  split; [apply H1; reflexivity|].
  split; [apply H2; reflexivity|].
  apply H3; cbn; lia.
Defined.


(** ** Loops over a live array *)

(** Below [i + n], an array and an extension of it read the same. *)
Lemma take_drop_prefix (l l' : list Fn) (i n : nat) :
  l `prefix_of` l' -> i + n <= length l ->
  take n (drop i l') = take n (drop i l).
Proof.
  intros [k ->] Hle. rewrite drop_app_le by lia.
  rewrite take_app_le; [reflexivity|]. rewrite length_drop. lia.
Qed.

Lemma take_S_drop (l : list Fn) (i n : nat) (x : Fn) :
  l !! i = Some x -> take (S n) (drop i l) = x :: take n (drop (S i) l).
Proof. intros H. rewrite (drop_S _ _ _ H). reflexivity. Qed.

Lemma take_all_drop_0 (l : list Fn) : take (length l) (drop 0 l) = l.
Proof. rewrite drop_0. apply firstn_all. Qed.

Section NotifyLoop.
Context {W V : Type}.
Variable self : Obj.
Variable subs : W -> list Fn.
Variable get : W -> V.
Variable call : Fn -> V -> W -> Run W (SubEvent V).

Lemma top_calls_app (t1 t2 : list (SubEvent V)) :
  top_calls (t1 ++ t2) = top_calls t1 ++ top_calls t2.
Proof. apply omap_app. Qed.

Lemma top_calls_step (f : Fn) (v : V) (inner t : list (SubEvent V)) (c : Completion) :
  top_calls (Called self f v inner ::
             match c with Returned => [] | Thrown e => [ConsoleError e] end ++ t)
  = (f, v) :: top_calls t.
Proof. destruct c; reflexivity. Qed.


(** When, besides, callbacks leave the value of [get()] as it is, every
    function is called with that value. *)
Lemma notify_loop_stable :
  (forall f v w, subs w `prefix_of` subs (world (call f v w))) ->
  (forall f v w, get (world (call f v w)) = get w) ->
  forall n i w, i + n <= length (subs w) ->
    get (AbstractSubscribable.notify_loop self subs get call n i w).1 = get w
    /\ top_calls (AbstractSubscribable.notify_loop self subs get call n i w).2
       = map (fun f => (f, get w)) (take n (drop i (subs w))).
Proof.
  intros Happ Hget. induction n as [|n IH]; intros i w Hle; cbn.
  - split; [done | by rewrite take_0].
  - unfold AbstractSubscribable.notify_step.
    destruct (subs w !! i) as [f|] eqn:Ef.
    2: { apply lookup_ge_None in Ef. lia. }
    pose proof (Happ f (get w) w) as Hp. pose proof (Hget f (get w) w) as Hg.
    assert (Hle1 : S i + n <= length (subs (world (call f (get w) w)))).
    { apply prefix_length in Hp. lia. }
    specialize (IH (S i) _ Hle1).
    destruct (AbstractSubscribable.notify_loop self subs get call n (S i)
                (world (call f (get w) w))) as [w2 t2] eqn:El.
    cbn in *. destruct IH as [IH1 IH2]. split; [congruence|].
    rewrite top_calls_step, IH2, Hg, (take_S_drop n Ef), (take_drop_prefix Hp) by lia.
    reflexivity.
Qed.


(** [notify] never throws: every call is inside [try]. *)
Lemma notify_returns (w : W) :
  completion (AbstractSubscribable.notify self subs get call w) = Returned.
Proof.
  unfold AbstractSubscribable.notify.
  destruct (AbstractSubscribable.notify_loop _ _ _ _ _ _ _). reflexivity.
Qed.

End NotifyLoop.

Section BusLoops.
Context {D : Type}.
Variable behave : EventBus.Behaviour D.
Variable behaveW : EventBus.BehaviourW D.
Variable topic : string.
Variable d : D.

Lemma handler_calls_app (t1 t2 : list (EventBus.Event D)) :
  EventBus.handler_calls (t1 ++ t2) = EventBus.handler_calls t1 ++ EventBus.handler_calls t2.
Proof. apply omap_app. Qed.

Lemma wildcard_calls_app (t1 t2 : list (EventBus.Event D)) :
  EventBus.wildcard_calls (t1 ++ t2)
  = EventBus.wildcard_calls t1 ++ EventBus.wildcard_calls t2.
Proof. apply omap_app. Qed.

Lemma surface_cons (ev : EventBus.Event D) (t : list (EventBus.Event D)) :
  EventBus.surface (ev :: t) = EventBus.surface_event ev :: EventBus.surface t.
Proof. reflexivity. Qed.

Lemma handler_calls_step (h : Fn) (c : Completion) (inner t : list (EventBus.Event D)) :
  EventBus.handler_calls
    (EventBus.HandlerCall h d inner ::
     match c with Returned => [] | Thrown e => [EventBus.ErrorLogged e] end ++ t)
  = h :: EventBus.handler_calls t.
Proof. destruct c; reflexivity. Qed.

Lemma wildcard_calls_step (h : Fn) (c : Completion) (inner t : list (EventBus.Event D)) :
  EventBus.wildcard_calls
    (EventBus.HandlerCall h d inner ::
     match c with Returned => [] | Thrown e => [EventBus.ErrorLogged e] end ++ t)
  = EventBus.wildcard_calls t.
Proof. destruct c; reflexivity. Qed.

Lemma wildcard_calls_cons (h : Fn) (inner t : list (EventBus.Event D)) :
  EventBus.wildcard_calls (EventBus.WildcardCall h topic d inner :: t)
  = h :: EventBus.wildcard_calls t.
Proof. reflexivity. Qed.

Lemma handler_calls_wildcard (h : Fn) (inner t : list (EventBus.Event D)) :
  EventBus.handler_calls (EventBus.WildcardCall h topic d inner :: t)
  = EventBus.handler_calls t.
Proof. reflexivity. Qed.

(** When topic handlers only append to the array of the topic, the first
    loop of [pub] calls the handlers that were in it when the loop started,
    and they all stay in place. *)
Lemma topic_loop_append_only :
  (forall h x b, EventBus.handlers_of topic b
                 `prefix_of` EventBus.handlers_of topic (world (behave h x b))) ->
  forall n i b, i + n <= length (EventBus.handlers_of topic b) ->
    EventBus.handler_calls (EventBus.topic_loop behave topic d n i b).2
      = take n (drop i (EventBus.handlers_of topic b))
    /\ EventBus.handlers_of topic b
       `prefix_of` EventBus.handlers_of topic (EventBus.topic_loop behave topic d n i b).1.
Proof.
  intros Happ. induction n as [|n IH]; intros i b Hle; cbn.
  - split; [by rewrite take_0 | done].
  - unfold EventBus.topic_step.
    destruct (EventBus.handlers_of topic b !! i) as [h|] eqn:Eh.
    2: { apply lookup_ge_None in Eh. lia. }
    pose proof (Happ h d b) as Hp.
    assert (Hle1 : S i + n <= length (EventBus.handlers_of topic (world (behave h d b)))).
    { apply prefix_length in Hp. lia. }
    specialize (IH (S i) _ Hle1).
    destruct (EventBus.topic_loop behave topic d n (S i) (world (behave h d b)))
      as [b2 t2] eqn:El.
    cbn in *. destruct IH as [IH1 IH2]. split.
    + rewrite handler_calls_step, IH1, (take_S_drop n Eh), (take_drop_prefix Hp) by lia.
      reflexivity.
    + etransitivity; eassumption.
Qed.

(** The first loop itself calls no wildcard handler. *)
Lemma topic_loop_no_wildcard_calls :
  forall n i b,
    EventBus.wildcard_calls (EventBus.topic_loop behave topic d n i b).2 = [].
Proof.
  induction n as [|n IH]; intros i b; cbn; [done|].
  unfold EventBus.topic_step.
  destruct (EventBus.handlers_of topic b !! i) as [h|] eqn:Eh.
  - specialize (IH (S i) (world (behave h d b))).
    destruct (EventBus.topic_loop behave topic d n (S i) (world (behave h d b)))
      as [b2 t2] eqn:El.
    cbn [fst snd app] in *. by rewrite wildcard_calls_step.
  - specialize (IH (S i) b).
    destruct (EventBus.topic_loop behave topic d n (S i) b) as [b2 t2] eqn:El.
    cbn [fst snd app] in *. exact IH.
Qed.

(** A handler array to which the topic handlers only append is extended over
    the first loop. *)
Lemma topic_loop_extends (g : EventBus.t D -> list Fn) :
  (forall h x b, g b `prefix_of` g (world (behave h x b))) ->
  forall n i b, g b `prefix_of` g (EventBus.topic_loop behave topic d n i b).1.
Proof.
  intros Happ. induction n as [|n IH]; intros i b; cbn; [done|].
  unfold EventBus.topic_step.
  destruct (EventBus.handlers_of topic b !! i) as [h|] eqn:Eh.
  - pose proof (Happ h d b) as Hp.
    specialize (IH (S i) (world (behave h d b))).
    destruct (EventBus.topic_loop behave topic d n (S i) (world (behave h d b)))
      as [b2 t2] eqn:El.
    cbn [fst snd app] in *. etransitivity; eassumption.
  - specialize (IH (S i) b).
    destruct (EventBus.topic_loop behave topic d n (S i) b) as [b2 t2] eqn:El.
    cbn [fst snd app] in *. exact IH.
Qed.



Lemma wildcard_loop_handler_calls :
  forall n i b,
    EventBus.handler_calls (trace (EventBus.wildcard_loop behaveW topic d n i b)) = [].
Proof.
  induction n as [|n IH]; intros i b; cbn; [done|].
  destruct (EventBus._wildcardHandlers b !! i) as [h|]; [|done].
  destruct (completion (behaveW h topic d b)) as [|e]; [|done].
  cbn [trace]. rewrite handler_calls_wildcard. apply IH.
Qed.


(** When, besides, the wildcard handlers return, the second loop calls all
    of them and returns. *)
Lemma wildcard_loop_complete :
  (forall h t x b, completion (behaveW h t x b) = Returned) ->
  (forall h t x b, EventBus._wildcardHandlers b
                   `prefix_of` EventBus._wildcardHandlers (world (behaveW h t x b))) ->
  forall n i b, i + n <= length (EventBus._wildcardHandlers b) ->
    EventBus.wildcard_calls (trace (EventBus.wildcard_loop behaveW topic d n i b))
      = take n (drop i (EventBus._wildcardHandlers b))
    /\ completion (EventBus.wildcard_loop behaveW topic d n i b) = Returned.
Proof.
  intros Hret Happ. induction n as [|n IH]; intros i b Hle; cbn.
  - by rewrite take_0.
  - destruct (EventBus._wildcardHandlers b !! i) as [h|] eqn:Eh.
    2: { apply lookup_ge_None in Eh. lia. }
    pose proof (Happ h topic d b) as Hp.
    rewrite (take_S_drop n Eh), (Hret h topic d b). cbn [trace completion].
    assert (Hle1 : S i + n
                   <= length (EventBus._wildcardHandlers (world (behaveW h topic d b)))).
    { apply prefix_length in Hp. lia. }
    destruct (IH (S i) _ Hle1) as [IH1 IH2].
    rewrite (take_drop_prefix Hp) in IH1 by lia.
    split; [|exact IH2].
    by rewrite wildcard_calls_cons, IH1.
Qed.

(** The guard [handlers !== undefined] of [pub] is the loop over an empty
    array. *)
Lemma pub_topic_phase (b : EventBus.t D) :
  match EventBus._topicHandlersMap b !! topic with
  | Some handlers => EventBus.topic_loop behave topic d (length handlers) 0 b
  | None => (b, [])
  end
  = EventBus.topic_loop behave topic d (length (EventBus.handlers_of topic b)) 0 b.
Proof.
  unfold EventBus.handlers_of.
  destruct (EventBus._topicHandlersMap b !! topic); reflexivity.
Qed.

(** [pub] as the sequence of its four phases. *)
Lemma pub_phases (sync isCached : bool) (b : EventBus.t D) :
  let b1 := (EventBus.cache_event topic d sync isCached b).1 in
  let p2 := EventBus.topic_loop behave topic d (length (EventBus.handlers_of topic b)) 0 b1 in
  let r := EventBus.wildcard_loop behaveW topic d
             (length (EventBus._wildcardHandlers p2.1)) 0 p2.1 in
  EventBus.registry b1 = EventBus.registry b
  /\ completion (EventBus.pub behave behaveW topic d sync isCached b) = completion r
  /\ world (EventBus.pub behave behaveW topic d sync isCached b) = world r
  /\ trace (EventBus.pub behave behaveW topic d sync isCached b)
     = (if isCached then [EventBus.CacheSet topic (EventBus.mkEntry d sync)] else [])
       ++ p2.2
       ++ (if sync then [EventBus.SendEvent topic d isCached] else [])
       ++ trace r.
Proof.
  unfold EventBus.pub.
  assert (Hb1 : EventBus.registry (EventBus.cache_event topic d sync isCached b).1
                = EventBus.registry b) by (destruct isCached; reflexivity).
  assert (Hh : EventBus.handlers_of topic (EventBus.cache_event topic d sync isCached b).1
               = EventBus.handlers_of topic b) by (destruct isCached; reflexivity).
  assert (Ht : (EventBus.cache_event topic d sync isCached b).2
               = if isCached then [EventBus.CacheSet topic (EventBus.mkEntry d sync)] else [])
    by (destruct isCached; reflexivity).
  destruct (EventBus.cache_event topic d sync isCached b) as [b1 t1]. cbn in *.
  rewrite pub_topic_phase, Hh.
  destruct (EventBus.topic_loop behave topic d (length (EventBus.handlers_of topic b)) 0 b1)
    as [b2 t2].
  cbn. subst t1. done.
Qed.

End BusLoops.

Section BusInvariant.
Context {D : Type}.
Variable behave : EventBus.Behaviour D.
Variable behaveW : EventBus.BehaviourW D.
Variable P : EventBus.t D -> Prop.
Hypothesis behave_keeps : forall h x b, P b -> P (world (behave h x b)).
Hypothesis behaveW_keeps : forall h t x b, P b -> P (world (behaveW h t x b)).

Lemma topic_loop_invariant (topic : string) (d : D) :
  forall n i b, P b -> P (EventBus.topic_loop behave topic d n i b).1.
Proof.
  induction n as [|n IH]; intros i b Hb; cbn; [exact Hb|].
  unfold EventBus.topic_step.
  destruct (EventBus.handlers_of topic b !! i) as [h|].
  - pose proof (behave_keeps h d Hb) as H1.
    specialize (IH (S i) _ H1).
    destruct (EventBus.topic_loop behave topic d n (S i) (world (behave h d b))). exact IH.
  - specialize (IH (S i) b Hb).
    destruct (EventBus.topic_loop behave topic d n (S i) b). exact IH.
Qed.

Lemma wildcard_loop_invariant (topic : string) (d : D) :
  forall n i b, P b -> P (world (EventBus.wildcard_loop behaveW topic d n i b)).
Proof.
  induction n as [|n IH]; intros i b Hb; cbn; [exact Hb|].
  destruct (EventBus._wildcardHandlers b !! i) as [h|]; [|exact Hb].
  pose proof (behaveW_keeps h topic d Hb) as H1.
  destruct (completion (behaveW h topic d b)) as [|e]; cbn [world]; [by apply IH | exact H1].
Qed.

(** What the cache write establishes and the callbacks keep holds when [pub]
    ends, whether it returns or throws. *)
Lemma pub_invariant (topic : string) (d : D) (sync isCached : bool) (b : EventBus.t D) :
  P (EventBus.cache_event topic d sync isCached b).1 ->
  P (world (EventBus.pub behave behaveW topic d sync isCached b)).
Proof.
  intros H1.
  destruct (@pub_phases D behave behaveW topic d sync isCached b) as (_ & _ & -> & _).
  apply wildcard_loop_invariant, topic_loop_invariant, H1.
Qed.

End BusInvariant.

(** ** Event bus: order of a publication *)

Lemma registry_eq {D : Type} (topic : string) (b b' : EventBus.t D) :
  EventBus.registry b = EventBus.registry b' ->
  EventBus.handlers_of topic b = EventBus.handlers_of topic b'
  /\ EventBus._wildcardHandlers b = EventBus._wildcardHandlers b'.
Proof.
  unfold EventBus.registry, EventBus.handlers_of. intros [= -> ->]. done.
Qed.

(** When the callbacks of the first loop only append to the array of the
    topic, the topic handlers [pub] itself calls are those of the bus it was
    called on, in order. *)
Lemma pub_handler_calls {D : Type} (behave : EventBus.Behaviour D)
    (behaveW : EventBus.BehaviourW D) (topic : string) (d : D) (sync isCached : bool)
    (b : EventBus.t D) :
  (forall h x b', EventBus.handlers_of topic b'
                  `prefix_of` EventBus.handlers_of topic (world (behave h x b'))) ->
  EventBus.handler_calls (trace (EventBus.pub behave behaveW topic d sync isCached b))
  = EventBus.handlers_of topic b.
Proof.
  intros Hd.
  destruct (@pub_phases D behave behaveW topic d sync isCached b) as (Hb1 & _ & _ & Ht).
  destruct (registry_eq topic Hb1) as [Hh1 _].
  set (b1 := (EventBus.cache_event topic d sync isCached b).1) in *.
  assert (Hlen : 0 + length (EventBus.handlers_of topic b)
                 <= length (EventBus.handlers_of topic b1)) by (rewrite Hh1; lia).
  destruct (@topic_loop_append_only D behave topic d Hd _ _ _ Hlen) as [Hcalls _].
  rewrite Ht, !handler_calls_app, Hcalls, wildcard_loop_handler_calls.
  rewrite Hh1, take_all_drop_0.
  destruct isCached, sync; cbn; by rewrite app_nil_r.
Qed.

(** The order of a publication when no callback removes a handler and the
    wildcard handlers return: the cache write, the handlers of the topic in
    the order of the array, the hand-over to the adapter, the wildcard
    handlers in the order of their array as the first loop left it. *)
Lemma pub_order_without_removal :
  forall (D : Type) (behave : EventBus.Behaviour D) (behaveW : EventBus.BehaviourW D)
         (topic : string) (d : D) (sync isCached : bool) (b : EventBus.t D),
    (forall h x b', EventBus.handlers_of topic b'
                      `prefix_of` EventBus.handlers_of topic (world (behave h x b'))
                    /\ EventBus._wildcardHandlers b'
                      `prefix_of` EventBus._wildcardHandlers (world (behave h x b'))) ->
    (forall h t x b', completion (behaveW h t x b') = Returned
                      /\ EventBus._wildcardHandlers b'
                        `prefix_of` EventBus._wildcardHandlers (world (behaveW h t x b'))) ->
    let after_topic :=
      (EventBus.topic_loop behave topic d (length (EventBus.handlers_of topic b)) 0
         (EventBus.cache_event topic d sync isCached b).1).1 in
    EventBus.handler_calls (trace (EventBus.pub behave behaveW topic d sync isCached b))
      = EventBus.handlers_of topic b
    /\ EventBus.wildcard_calls (trace (EventBus.pub behave behaveW topic d sync isCached b))
       = EventBus._wildcardHandlers after_topic
    /\ EventBus._wildcardHandlers b `prefix_of` EventBus._wildcardHandlers after_topic
    /\ (exists t2 t4,
          trace (EventBus.pub behave behaveW topic d sync isCached b)
          = (if isCached then [EventBus.CacheSet topic (EventBus.mkEntry d sync)] else [])
            ++ t2 ++ (if sync then [EventBus.SendEvent topic d isCached] else []) ++ t4
          /\ EventBus.wildcard_calls t2 = []
          /\ EventBus.handler_calls t4 = [])
    /\ completion (EventBus.pub behave behaveW topic d sync isCached b) = Returned.
Proof.
  intros D behave behaveW topic d sync isCached b Hd Hw after_topic.
  destruct (@pub_phases D behave behaveW topic d sync isCached b) as (Hb1 & Hc & _ & Ht).
  destruct (registry_eq topic Hb1) as [Hh1 Hw1].
  set (b1 := (EventBus.cache_event topic d sync isCached b).1) in *.
  pose proof (@topic_loop_no_wildcard_calls D behave topic d
                (length (EventBus.handlers_of topic b)) 0 b1) as Hshape.
  pose proof (@topic_loop_extends D behave topic d (@EventBus._wildcardHandlers D)
                (fun h x b' => proj2 (Hd h x b'))
                (length (EventBus.handlers_of topic b)) 0 b1) as Hext.
  set (p2 := EventBus.topic_loop behave topic d (length (EventBus.handlers_of topic b)) 0 b1)
    in *.
  assert (HlenW : 0 + length (EventBus._wildcardHandlers p2.1)
                  <= length (EventBus._wildcardHandlers p2.1)) by lia.
  destruct (@wildcard_loop_complete D behaveW topic d (fun h t x b' => proj1 (Hw h t x b'))
              (fun h t x b' => proj2 (Hw h t x b')) _ _ _ HlenW) as [HWcalls HWret].
  split; [apply pub_handler_calls; intros h x b'; apply Hd|].
  split.
  { rewrite Ht, !wildcard_calls_app, Hshape, HWcalls, take_all_drop_0.
    destruct isCached, sync; reflexivity. }
  split; [by rewrite <- Hw1|].
  split; [|congruence].
  eexists _, _. split; [exact Ht|]. split; [exact Hshape|].
  apply wildcard_loop_handler_calls.
Qed.

(** C1 on the code.  Handlers 1 and 2 are registered for ["t"] and handler 1
    is a one-shot handler, it calls [off("t", <itself>)].  [pub("t", 9)]
    writes the cache and calls handler 1; at the second turn the array holds
    handler 2 only, [handlers[1]] is [undefined], the call throws a
    [TypeError] that the [catch] reports, and handler 2, which is still
    registered, is not called.  The wildcard handlers follow and [pub]
    returns. *)
Theorem pub_passes_over_a_registered_handler :
  EventBus.handlers_of "t" Scenario.bus = [1; 2]%nat
  /\ trace (EventBus.pub Scenario.one_shot Scenario.quietW "t" 9%nat false true Scenario.bus)
     = [EventBus.CacheSet "t" (EventBus.mkEntry 9%nat false);
        EventBus.HandlerCall 1%nat 9%nat [];
        EventBus.ErrorLogged TypeError;
        EventBus.WildcardCall 3%nat "t" 9%nat [];
        EventBus.WildcardCall 4%nat "t" 9%nat []]
  /\ completion (EventBus.pub Scenario.one_shot Scenario.quietW "t" 9%nat false true
                   Scenario.bus) = Returned
  /\ EventBus.handlers_of "t"
       (world (EventBus.pub Scenario.one_shot Scenario.quietW "t" 9%nat false true
                 Scenario.bus)) = [2]%nat.
Proof. vm_compute. repeat split. Qed.

(** ** Registration while a dispatch is running *)




(** ** Subject: equality suppresses notification *)

(** C2 on the code.  A subject holds 0 and has subscribers 1 and 2;
    subscriber 1 is a one-shot subscriber, it calls [unsub(<itself>)].
    [set(5)] stores 5 and calls subscriber 1 with 5; at the second turn of
    [notify] the array holds subscriber 2 only, [this.subs[1]] is
    [undefined], the call throws a [TypeError] that the [catch] reports, and
    subscriber 2, which is still subscribed, is not called. *)
Theorem set_passes_over_a_subscriber :
  Subject.equalityFunc Scenario.subject 5%nat (Subject.value Scenario.subject) = false
  /\ Subject.subs Scenario.subject = [1; 2]%nat
  /\ Subject.set 0%nat Subject.this Subject.put_this Scenario.one_shot_sub 5%nat
       Scenario.subject
     = mkRun Returned (Subject.mk 5%nat Nat.eqb None [2]%nat)
         [Called 0%nat 1%nat 5%nat []; ConsoleError TypeError].
Proof. vm_compute. repeat split. Qed.

(** What [set] does when no subscriber removes a subscription or sets the
    subject while it is notified.  When [equalityFunc(x, current)] holds,
    [set(x)] calls nothing and leaves the subject as it is.  When it does not
    hold, [set(x)] stores what [mutateFunc(current, x)] makes of the value if
    a mutate function is configured, and [x] otherwise, and then calls every
    subscriber with the new value, in the order of subscription, and returns
    with that value stored. *)
Theorem subject_set_notifies_on_change :
  forall (V : Type) (call : Fn -> V -> Subject.t V -> Run (Subject.t V) (SubEvent V))
         (s : Subject.t V) (x : V),
    (Subject.equalityFunc s x (Subject.value s) = true ->
       Subject.set 0%nat Subject.this Subject.put_this call x s = mkRun Returned s [])
    /\ (Subject.equalityFunc s x (Subject.value s) = false ->
        (forall f v s', Subject.subs s' `prefix_of` Subject.subs (world (call f v s'))) ->
        (forall f v s', Subject.value (world (call f v s')) = Subject.value s') ->
        let v' := match Subject.mutateFunc s with
                  | Some mutate => mutate (Subject.value s) x
                  | None => x
                  end in
        Subject.value (world (Subject.set 0%nat Subject.this Subject.put_this call x s)) = v'
        /\ top_calls (trace (Subject.set 0%nat Subject.this Subject.put_this call x s))
           = map (fun f => (f, v')) (Subject.subs s)
        /\ completion (Subject.set 0%nat Subject.this Subject.put_this call x s) = Returned).
Proof.
  intros V call s x. split.
  - intros He. unfold Subject.set, Subject.this. rewrite He. reflexivity.
  - intros He Happ Hget v'.
    assert (Hset : Subject.set 0%nat Subject.this Subject.put_this call x s
                   = Subject.notify 0%nat Subject.this call (Subject.with_value v' s)).
    { subst v'. unfold Subject.set, Subject.this, Subject.put_this. rewrite He.
      destruct (Subject.mutateFunc s); reflexivity. }
    rewrite Hset. unfold Subject.notify, AbstractSubscribable.notify.
    set (w1 := Subject.with_value v' s).
    assert (Hlen : 0 + length (Subject.subs (Subject.this w1))
                   <= length (Subject.subs (Subject.this w1))) by lia.
    destruct (@notify_loop_stable (Subject.t V) V 0%nat
                (fun w => Subject.subs (Subject.this w)) (Subject.get Subject.this)
                call Happ Hget _ _ _ Hlen) as [H1 H2].
    destruct (AbstractSubscribable.notify_loop 0%nat
                (fun w => Subject.subs (Subject.this w)) (Subject.get Subject.this) call
                (length (Subject.subs (Subject.this w1))) 0 w1) as [w2 t2].
    cbn in *. rewrite H2, take_all_drop_0. done.
Qed.

Lemma subject_set_notifies_on_change_witness :
  Subject.set 0%nat Subject.this Subject.put_this Scenario.adding_sub 0%nat Scenario.subject
    = mkRun Returned Scenario.subject []
  /\ top_calls
       (trace (Subject.set 0%nat Subject.this Subject.put_this Scenario.adding_sub 5%nat
                 Scenario.subject)) = [(1, 5); (2, 5)]%nat.
Proof.
  destruct (@subject_set_notifies_on_change nat Scenario.adding_sub Scenario.subject 0%nat)
    as [H1 _].
  destruct (@subject_set_notifies_on_change nat Scenario.adding_sub Scenario.subject 5%nat)
    as [_ H2].
  split.
  - apply H1. reflexivity.
  - destruct H2 as (_ & H & _).
    + reflexivity.
    + intros f v s'. unfold Scenario.adding_sub.
      destruct (Nat.eqb f 1); cbn; [by apply prefix_app_r | reflexivity].
    + intros f v s'. unfold Scenario.adding_sub.
      destruct (Nat.eqb f 1); reflexivity.
    + exact H.
Defined.

(** ** Errors thrown by callbacks *)

(** The guarded loop keeps errors in: with wildcard handlers that return, a
    publication returns whatever its topic handlers do or throw. *)
Lemma pub_catches_topic_handler_errors :
  forall (D : Type) (behave : EventBus.Behaviour D)
         (topic : string) (d : D) (sync isCached : bool) (b : EventBus.t D),
    completion (EventBus.pub behave Scenario.quietW topic d sync isCached b) = Returned.
Proof.
  intros D behave topic d sync isCached b.
  destruct (@pub_phases D behave Scenario.quietW topic d sync isCached b)
    as (_ & Hc & _ & _).
  rewrite Hc. clear Hc.
  apply (@wildcard_loop_complete D Scenario.quietW topic d); done.
Qed.

(** C4 on the code.  Wildcard handler 3 throws: [pub] ends with its error
    and wildcard handler 4 is not called.  Subscriber 1 of a computed subject
    throws: [set] ends with its error and subscriber 2 is not called.  A
    throwing topic handler 1, in the guarded loop, is reported and handler 2
    and the wildcard handlers are called. *)
Theorem unguarded_loops_let_errors_out :
  (EventBus._wildcardHandlers Scenario.bus = [3; 4]%nat
   /\ completion (EventBus.pub Scenario.quiet Scenario.throwingW "t" 9%nat false true
                    Scenario.bus) = Thrown (UserError 0)
   /\ EventBus.wildcard_calls
        (trace (EventBus.pub Scenario.quiet Scenario.throwingW "t" 9%nat false true
                  Scenario.bus)) = [3]%nat)
  /\ (ComputedSubject._subs Scenario.computed = [1; 2]%nat
      /\ completion (ComputedSubject.set Scenario.throwing_sub 1%nat Scenario.computed)
         = Thrown (UserError 0)
      /\ trace (ComputedSubject.set Scenario.throwing_sub 1%nat Scenario.computed)
         = [ComputedSubject.Called 1%nat false 1%nat])
  /\ (completion (EventBus.pub Scenario.throwing Scenario.quietW "t" 9%nat false true
                    Scenario.bus) = Returned
      /\ trace (EventBus.pub Scenario.throwing Scenario.quietW "t" 9%nat false true
                  Scenario.bus)
         = [EventBus.CacheSet "t" (EventBus.mkEntry 9%nat false);
            EventBus.HandlerCall 1%nat 9%nat []; EventBus.ErrorLogged (UserError 0);
            EventBus.HandlerCall 2%nat 9%nat [];
            EventBus.WildcardCall 3%nat "t" 9%nat [];
            EventBus.WildcardCall 4%nat "t" 9%nat []]).
Proof. vm_compute. repeat split. Qed.

(** ** Storage relay *)

(** Every call the storage adapter makes passes [true] as [sync] and no
    [isCached]. *)
Lemma storage_receive_calls :
  forall (Json : Type) (JSON_parse : string -> option Json)
         (e : EventBusStorageSync.StorageEvent) (c : RecvCall (option Json)),
    In c (EventBusStorageSync.receiveEvent JSON_parse e).2 ->
    rc_sync c = Some true /\ rc_isCached c = None.
Proof.
  intros Json JSON_parse e c. unfold EventBusStorageSync.receiveEvent.
  repeat case_match; cbn; intros Hin; try tauto; destruct Hin as [<-|[]]; done.
Qed.

(** A publication with [sync] set hands the event to the adapter, whatever
    the handlers do. *)
Lemma pub_sync_sends :
  forall (D : Type) behave behaveW (topic : string) (d : D) (isCached : bool)
         (b : EventBus.t D),
    In (EventBus.SendEvent topic d isCached)
       (trace (EventBus.pub behave behaveW topic d true isCached b)).
Proof.
  intros D behave behaveW topic d isCached b.
  destruct (@pub_phases D behave behaveW topic d true isCached b) as (_ & _ & _ & ->).
  rewrite !in_app_iff. right. right. left. left. reflexivity.
Qed.

(** C5 on the code.  The storage event another window sees after
    [sendEvent("x", 1)] makes the adapter call [recvEventCb("x", 1, true)]:
    the local publication runs with [sync = true] and the default
    [isCached = true], caches the data as synced and sends the event to the
    adapter again.  The text written by [sendEvent] carries the topic and the
    data only. *)
Theorem storage_receive_publishes_with_sync :
  EventBusStorageSync.sendEvent (fun _ : nat => "1") "x" (Some 1%nat)
    = [EventBusStorageSync.SetItem "eb.evt" "x,1"; EventBusStorageSync.RemoveItem "eb.evt"]
  /\ EventBusStorageSync.receiveEvent Scenario.parse_one Scenario.storage_event
     = (Returned, [mkRecv "x" (Some 1%nat) (Some true) None])
  /\ trace (recvEventCb Scenario.quiet Scenario.quietW
              (mkRecv "x" (Some 1%nat) (Some true) None) Scenario.json_bus)
     = [EventBus.CacheSet "x" (EventBus.mkEntry (Some 1%nat) true);
        EventBus.SendEvent "x" (Some 1%nat) true].
Proof. vm_compute. repeat split. Qed.

(** ** Consumer filters *)

(** With [atFrequency(10)] built at time 0, the event received at time 0 is
    not passed on: of the events at 0, 60 and 140 ms only the last reaches
    the handler.  This is what C7 as stated excludes. *)
Lemma at_frequency_counterexample :
  option_map snd
    (Consumer.receive 1 [(0, 1); (60, 2); (140, 3)]%Q
       (Consumer.atFrequency 10 0 Consumer.Root)) = Some [3%Q]
  /\ option_map snd
       (Consumer.receive 1 [(0, 1); (60, 2); (140, 3)]%Q
          (Consumer.atFrequency 10 0 Consumer.Root)) <> Some [1%Q; 3%Q].
Proof. split; [vm_compute; reflexivity | vm_compute; discriminate]. Qed.

(** C7, as the code has it.  For [atFrequency(10)] built at time 0 and events
    received at 0, 60 and 140 ms, the handler is called for the event at 140
    only: at 0 and at 60 less than a period of 100 ms has passed since the
    reference time.  After that the reference time is 100, a multiple of the
    period, and not 140.  One turn of the catch-up loop is enough. *)
Theorem at_frequency_forwards_after_a_period :
  forall (fuel : nat) (d0 d60 d140 : Q),
  exists previousTime : Q,
    Consumer.receive (S fuel) [(0, d0); (60, d60); (140, d140)]%Q
      (Consumer.atFrequency 10 0 Consumer.Root)
    = Some (Consumer.Filtered Consumer.Root
              (Consumer.AtFrequency (1000 / 10) previousTime), [d140])
    /\ (previousTime == 100)%Q /\ ~ (previousTime == 140)%Q.
Proof.
  intros fuel d0 d60 d140. exists (0 + 1000 / 10)%Q. split.
  - destruct fuel; vm_compute; reflexivity.
  - split; [reflexivity | intros H; vm_compute in H; discriminate].
Qed.

(** C10.  [withPrecision(n)] starts with [lastValue] 0, so on a chain it
    ends, the first event whose value rounds to 0 at [n] decimal places is
    not passed on: the handler is not called and the state stays as it is. *)
Theorem with_precision_suppresses_initial_zero :
  forall (fuel : nat) (now : Q) (parent : Consumer.t) (precision : Z) (v : Q),
    (Consumer.valueAtPrecision precision v == 0)%Q ->
    Consumer.withPrecision precision parent
      = Consumer.Filtered parent (Consumer.WithPrecision precision 0)
    /\ Consumer.with_ fuel now (Consumer.withPrecision precision parent) v
       = Some (Consumer.withPrecision precision parent, []).
Proof.
  intros fuel now parent precision v Hz. split; [reflexivity|].
  unfold Consumer.withPrecision. destruct fuel; cbn [Consumer.with_];
    apply Qeq_bool_iff in Hz; rewrite Hz; reflexivity.
Qed.

Lemma with_precision_suppresses_initial_zero_witness :
  Consumer.with_ 0 0 (Consumer.withPrecision 1 Consumer.Root) (4 # 100)
  = Some (Consumer.withPrecision 1 Consumer.Root, []).
Proof.
  apply (@with_precision_suppresses_initial_zero 0 0%Q Consumer.Root 1%Z (4 # 100)).
  reflexivity.
Defined.

(** A first value that does not round to 0 is passed on, rounded. *)
Lemma with_precision_forwards_nonzero :
  Consumer.with_ 0 0 (Consumer.withPrecision 1 Consumer.Root) (6 # 100)
  = Some (Consumer.Filtered Consumer.Root (Consumer.WithPrecision 1 (1 # 10)), [1 # 10]).
Proof. vm_compute. reflexivity. Qed.

(** ** MappedSubject: destroy *)

Lemma indexOf_lookup (f : Fn) (l : list Fn) (i : nat) :
  indexOf f l = Some i -> l !! i = Some f.
Proof.
  revert i. induction l as [|x l IH]; intros i; cbn; [discriminate|].
  destruct (Nat.eqb_spec x f) as [->|Hne].
  - intros [= <-]. reflexivity.
  - destruct (indexOf f l) as [j|]; cbn; [|discriminate].
    intros [= <-]. cbn. by apply IH.
Qed.

Lemma indexOf_None_count (f : Fn) (l : list Fn) :
  indexOf f l = None -> count_occ Nat.eq_dec l f = 0%nat.
Proof.
  induction l as [|x l IH]; cbn; [reflexivity|].
  destruct (Nat.eqb_spec x f) as [->|Hne]; [discriminate|].
  destruct (indexOf f l); cbn; [discriminate|]. intros _.
  destruct (Nat.eq_dec x f); [contradiction | by apply IH].
Qed.

(** [splice(i, 1)] removes one occurrence of the element at [i]. *)
Lemma count_splice1 (l : list Fn) (i : nat) (x g : Fn) :
  l !! i = Some x ->
  count_occ Nat.eq_dec l g
  = (count_occ Nat.eq_dec (splice1 i l) g + if Nat.eq_dec x g then 1 else 0)%nat.
Proof.
  revert i. induction l as [|y l IH]; intros i; [discriminate|].
  destruct i as [|i]; cbn.
  - intros [= ->]. destruct (Nat.eq_dec x g); lia.
  - intros H. rewrite (IH i H). destruct (Nat.eq_dec y g); lia.
Qed.

Section MappedWorld.
Context {V : Type}.
Variable observe : Fn -> V -> Completion.

(** [unsub] on an input takes away one subscription of the function, there
    only, and leaves the mapped subject alone. *)
Lemma unsub_input (k : nat) (h : Fn) (w : MappedSubject.World V) :
  let w' := Subject.unsub (MappedSubject.getS k) (MappedSubject.putS k) h w in
  MappedSubject.mapped w' = MappedSubject.mapped w
  /\ (forall k' g, MappedSubject.subscribed w' k' g <= MappedSubject.subscribed w k' g)
  /\ MappedSubject.subscribed w' k h = pred (MappedSubject.subscribed w k h).
Proof.
  unfold Subject.unsub, AbstractSubscribable.unsub, MappedSubject.getS,
    MappedSubject.subscribed.
  destruct (indexOf h (Subject.subs (MappedSubject.store w k))) as [i|] eqn:Ei; cbn.
  - apply indexOf_lookup in Ei. repeat split.
    + intros k' g. destruct (Nat.eqb_spec k' k) as [->|Hne]; cbn; [|lia].
      rewrite (count_splice1 g Ei). lia.
    + rewrite Nat.eqb_refl. cbn. rewrite (count_splice1 h Ei).
      destruct (Nat.eq_dec h h); [lia | contradiction].
  - apply indexOf_None_count in Ei. rewrite Ei. repeat split; intros; lia.
Qed.

(** The loop of [destroy] takes every pair of an input and its handler
    apart, if the handler was subscribed there at most once. *)
Lemma unsubscribe_inputs_spec (ins : list nat) (hs : list Fn) :
  forall w : MappedSubject.World V,
    let w' := MappedSubject.unsubscribe_inputs ins hs w in
    MappedSubject.mapped w' = MappedSubject.mapped w
    /\ (forall k g, MappedSubject.subscribed w' k g <= MappedSubject.subscribed w k g)
    /\ (forall i k h, ins !! i = Some k -> hs !! i = Some h ->
          MappedSubject.subscribed w k h <= 1 -> MappedSubject.subscribed w' k h = 0%nat).
Proof.
  revert hs. induction ins as [|k0 ins IH]; intros [|h0 hs] w; cbn;
    try (repeat split; [lia | intros i k h Hi Hh; try discriminate;
                               destruct i; discriminate]).
  destruct (unsub_input k0 h0 w) as (Hm & Hle & Hpred).
  destruct (IH hs (Subject.unsub (MappedSubject.getS k0) (MappedSubject.putS k0) h0 w))
    as (Hm' & Hle' & Hz').
  repeat split.
  - congruence.
  - intros k g. etransitivity; [apply Hle' | apply Hle].
  - intros [|i] k h Hi Hh Hone; cbn in *.
    + injection Hi as ->. injection Hh as ->.
      pose proof (Hle' k h). lia.
    + apply (Hz' i k h Hi Hh). pose proof (Hle k h). lia.
Qed.

(** After [destroy] no input handler is subscribed to any subject, and the
    mapped subject is as it was. *)
Lemma destroy_detaches (w : MappedSubject.World V) :
  MappedSubject.well_subscribed w ->
  MappedSubject.mapped (MappedSubject.destroy w) = MappedSubject.mapped w
  /\ MappedSubject.detached (MappedSubject.destroy w).
Proof.
  intros [Hlen Hwf]. unfold MappedSubject.destroy.
  destruct (unsubscribe_inputs_spec (MappedSubject.inputs (MappedSubject.mapped w))
              (MappedSubject.inputHandlers (MappedSubject.mapped w)) w)
    as (Hm & Hle & Hz).
  split; [exact Hm|].
  intros k f Hin. rewrite Hm in Hin.
  apply list_elem_of_In, list_elem_of_lookup in Hin. destruct Hin as [i Hi].
  destruct (Hwf i f Hi k) as [Hone Hown].
  destruct (Nat.eq_dec (MappedSubject.subscribed w k f) 0) as [Hz0|Hnz].
  - pose proof (Hle k f). lia.
  - apply (Hz i k f); [apply Hown; lia | exact Hi | exact Hone].
Qed.

Lemma detached_indexOf (w : MappedSubject.World V) (k : nat) (i : nat) (f : Fn) :
  MappedSubject.detached w ->
  Subject.subs (MappedSubject.store w k) !! i = Some f ->
  indexOf f (MappedSubject.inputHandlers (MappedSubject.mapped w)) = None.
Proof.
  intros Hd Hf.
  destruct (indexOf f (MappedSubject.inputHandlers (MappedSubject.mapped w)))
    as [j|] eqn:Ej; [|reflexivity].
  apply indexOf_lookup in Ej.
  assert (Hin : In f (MappedSubject.inputHandlers (MappedSubject.mapped w))).
  { apply list_elem_of_In, list_elem_of_lookup. eauto. }
  specialize (Hd k f Hin). unfold MappedSubject.subscribed in Hd.
  assert (Hin' : In f (Subject.subs (MappedSubject.store w k))).
  { apply list_elem_of_In, list_elem_of_lookup. eauto. }
  apply (count_occ_In Nat.eq_dec) in Hin'. lia.
Qed.

(** In a detached world the notification of an input reaches observers
    only: the world stays as it is and the mapped subject notifies nobody. *)
Lemma notify_input_detached (k : nat) :
  forall n i (w : MappedSubject.World V),
    MappedSubject.detached w ->
    let r := AbstractSubscribable.notify_loop (MappedSubject.input_obj k)
               (fun w => Subject.subs (MappedSubject.getS k w))
               (Subject.get (MappedSubject.getS k))
               (MappedSubject.call observe) n i w in
    r.1 = w /\ Forall (fun ev => notified_by MappedSubject.self ev = false) r.2.
Proof.
  induction n as [|n IH]; intros i w Hd; cbn; [by split|].
  unfold AbstractSubscribable.notify_step, MappedSubject.getS.
  destruct (Subject.subs (MappedSubject.store w k) !! i) as [f|] eqn:Ef.
  - unfold MappedSubject.call. rewrite (detached_indexOf Hd Ef). cbn.
    destruct (IH (S i) w Hd) as [H1 H2].
    destruct (AbstractSubscribable.notify_loop _ _ _ _ n (S i) w) as [w2 t2].
    cbn in *. split; [exact H1|].
    constructor; [reflexivity|].
    destruct (observe f _); cbn; [exact H2 | by constructor].
  - destruct (IH (S i) w Hd) as [H1 H2].
    destruct (AbstractSubscribable.notify_loop _ _ _ _ n (S i) w) as [w2 t2].
    cbn in *. split; [exact H1 | by constructor].
Qed.

(** A change of an input in a detached world. *)
Lemma set_input_detached (k : nat) (x : V) (w : MappedSubject.World V) :
  MappedSubject.detached w ->
  MappedSubject.mapped (world (MappedSubject.set_input observe k x w))
    = MappedSubject.mapped w
  /\ MappedSubject.detached (world (MappedSubject.set_input observe k x w))
  /\ Forall (fun ev => notified_by MappedSubject.self ev = false)
       (trace (MappedSubject.set_input observe k x w)).
Proof.
  intros Hd. unfold MappedSubject.set_input, Subject.set.
  destruct (negb _); [|by repeat split].
  set (w1 := match Subject.mutateFunc (MappedSubject.getS k w) with
             | Some mutate => _
             | None => _
             end).
  assert (Hm1 : MappedSubject.mapped w1 = MappedSubject.mapped w).
  { subst w1. destruct (Subject.mutateFunc _); reflexivity. }
  assert (Hd1 : MappedSubject.detached w1).
  { intros k' f Hin. rewrite Hm1 in Hin. specialize (Hd k' f Hin).
    subst w1. unfold MappedSubject.subscribed, MappedSubject.getS in *.
    destruct (Subject.mutateFunc _); cbn; destruct (Nat.eqb_spec k' k) as [->|];
      cbn; exact Hd. }
  unfold Subject.notify, AbstractSubscribable.notify.
  destruct (notify_input_detached k
              (length (Subject.subs (MappedSubject.getS k w1))) 0 Hd1) as [H1 H2].
  destruct (AbstractSubscribable.notify_loop _ _ _ _ _ 0 w1) as [w2 t2].
  cbn in *. subst w2. by repeat split.
Qed.

Lemma set_inputs_detached (changes : list (nat * V)) :
  forall w : MappedSubject.World V,
    MappedSubject.detached w ->
    MappedSubject.mapped (MappedSubject.set_inputs observe changes w).1
      = MappedSubject.mapped w
    /\ Forall (fun ev => notified_by MappedSubject.self ev = false)
         (MappedSubject.set_inputs observe changes w).2.
Proof.
  induction changes as [|[k x] rest IH]; intros w Hd; cbn; [by split|].
  destruct (set_input_detached k x Hd) as (Hm & Hd' & Ht).
  destruct (IH _ Hd') as [Hm' Ht'].
  destruct (MappedSubject.set_inputs observe rest _) as [w' tr].
  cbn in *. split; [congruence | by apply Forall_app].
Qed.

End MappedWorld.

Section MappedCreate.
Context {V : Type}.
Variable observe : Fn -> V -> Completion.

(** [sub] on an input adds one subscription of the function, there only. *)
Lemma sub_input (k0 : nat) (h0 : Fn) (w : MappedSubject.World V) :
  let w' := world (Subject.sub (MappedSubject.input_obj k0) (MappedSubject.getS k0)
                     (MappedSubject.putS k0) (MappedSubject.call observe) h0 false w) in
  MappedSubject.mapped w' = MappedSubject.mapped w
  /\ forall k g, MappedSubject.subscribed w' k g
                 = (MappedSubject.subscribed w k g
                    + if decide (k = k0 /\ g = h0) then 1 else 0)%nat.
Proof.
  cbn. split; [reflexivity|]. intros k g.
  unfold MappedSubject.subscribed, MappedSubject.getS. cbn.
  destruct (Nat.eqb_spec k k0) as [->|Hne]; cbn.
  - rewrite count_occ_app. cbn.
    destruct (Nat.eq_dec h0 g) as [->|Hg]; destruct (decide _) as [Hdec|Hdec];
      first [reflexivity | exfalso; intuition congruence].
  - destruct (decide _) as [Hdec|Hdec]; [exfalso; intuition congruence | lia].
Qed.

(** The loop of the constructor subscribes every handler once, to the input
    at its index. *)
Lemma subscribe_inputs_spec (ins : list nat) :
  forall (hs : list Fn) (w : MappedSubject.World V),
    NoDup hs ->
    let w' := MappedSubject.subscribe_inputs observe ins hs w in
    MappedSubject.mapped w' = MappedSubject.mapped w
    /\ forall k g,
         (~ In g hs -> MappedSubject.subscribed w' k g = MappedSubject.subscribed w k g)
         /\ (forall i, hs !! i = Some g ->
               MappedSubject.subscribed w' k g
               = (MappedSubject.subscribed w k g
                  + if decide (ins !! i = Some k) then 1 else 0)%nat).
Proof.
  induction ins as [|k0 ins IH]; intros [|h0 hs] w Hnd; cbn.
  - split; [reflexivity|]. intros k g. split; [reflexivity|]. intros i Hi. discriminate.
  - split; [reflexivity|]. intros k g. split; [reflexivity|]. intros i Hi.
    case_decide; [discriminate | lia].
  - split; [reflexivity|]. intros k g. split; [reflexivity|]. intros i Hi. discriminate.
  - apply NoDup_cons in Hnd. destruct Hnd as [Hh0 Hnd].
    destruct (sub_input k0 h0 w) as [Hm1 Hs1]. cbn in Hm1, Hs1.
    destruct (IH hs (world (Subject.sub (MappedSubject.input_obj k0) (MappedSubject.getS k0)
                              (MappedSubject.putS k0) (MappedSubject.call observe)
                              h0 false w)) Hnd) as [Hm' Hs'].
    cbn in Hm', Hs'.
    split; [congruence|]. intros k g. split.
    + intros Hg. destruct (Hs' k g) as [Hout _].
      rewrite Hout by tauto. rewrite Hs1.
      destruct (decide (k = k0 /\ g = h0)) as [[_ ->]|Hdec]; [|lia].
      exfalso. apply Hg. left. reflexivity.
    + intros [|i] Hi; cbn in Hi.
      * injection Hi as ->. destruct (Hs' k g) as [Hout _].
        rewrite Hout by (rewrite <- list_elem_of_In; exact Hh0).
        rewrite Hs1. cbn.
        destruct (decide (k = k0 /\ g = g)) as [[Hk _]|Hd1];
          destruct (decide (Some k0 = Some k)) as [Hd2|Hd2].
        -- reflexivity.
        -- exfalso. apply Hd2. congruence.
        -- exfalso. apply Hd1. split; congruence.
        -- reflexivity.
      * destruct (Hs' k g) as [_ Hin]. rewrite (Hin i Hi), Hs1. cbn.
        assert (Hne : g <> h0).
        { intros ->. apply Hh0, list_elem_of_lookup. eauto. }
        destruct (decide (k = k0 /\ g = h0)) as [[_ Hd1]|Hd1]; [contradiction|].
        by rewrite Nat.add_0_r.
Qed.

(** The constructor leaves a well-subscribed world, when the functions it
    binds are new: distinct, and subscribed nowhere. *)
Lemma create_well_subscribed (truthy : V -> bool)
    (mapFunc : list V -> option V -> V) (equalityFunc : V -> V -> bool)
    (mutateFunc : option (V -> V -> V)) (initialVal : option V)
    (ins : list nat) (handlers : list Fn) (subjects : nat -> Subject.t V) :
  length handlers = length ins ->
  NoDup handlers ->
  (forall k f, In f handlers -> count_occ Nat.eq_dec (Subject.subs (subjects k)) f = 0%nat) ->
  MappedSubject.well_subscribed
    (MappedSubject.create observe truthy mapFunc equalityFunc mutateFunc initialVal
       ins handlers subjects).
Proof.
  intros Hlen Hnd Hfresh. unfold MappedSubject.create.
  set (this := match MappedSubject.initial_and_mutate truthy initialVal mutateFunc with
               | Some _ => _
               | None => _
               end).
  assert (Hi : MappedSubject.inputs this = ins).
  { subst this.
    destruct (MappedSubject.initial_and_mutate truthy initialVal mutateFunc) as [[v0 mu]|];
      reflexivity. }
  assert (Hh : MappedSubject.inputHandlers this = handlers).
  { subst this.
    destruct (MappedSubject.initial_and_mutate truthy initialVal mutateFunc) as [[v0 mu]|];
      reflexivity. }
  destruct (subscribe_inputs_spec ins (MappedSubject.mkWorld subjects this) Hnd)
    as [Hm Hs].
  cbn in Hm, Hs. unfold MappedSubject.well_subscribed. rewrite Hm. cbn.
  rewrite Hi, Hh. split; [exact Hlen|].
  intros i f Hf k. destruct (Hs k f) as [_ Hin]. rewrite (Hin i Hf).
  assert (H0 : MappedSubject.subscribed (MappedSubject.mkWorld subjects this) k f = 0%nat).
  { apply Hfresh, list_elem_of_In, list_elem_of_lookup. eauto. }
  rewrite H0. case_decide; split; try lia; done.
Qed.

End MappedCreate.

(** Before [destroy] a change of an input reaches the mapped subject: it
    recomputes its value and notifies its subscriber. *)
Lemma mapped_subject_follows_inputs :
  MappedSubject.get Scenario.sum_world = 3%nat
  /\ MappedSubject.get
       (world (MappedSubject.set_input Scenario.observer 0 5%nat Scenario.sum_world)) = 7%nat
  /\ trace (MappedSubject.set_input Scenario.observer 0 5%nat Scenario.sum_world)
     = [Called (MappedSubject.input_obj 0) 10%nat 5%nat
          [Called MappedSubject.self 20%nat 7%nat []]].
Proof. vm_compute. repeat split. Qed.

(** C9.  After [destroy()], whatever changes the input subjects go through,
    the mapped subject keeps the value it had ([get()] returns it) and none
    of its subscribers is called, at any depth of the notifications. *)
Theorem destroyed_mapped_subject_is_frozen :
  forall (V : Type) (observe : Fn -> V -> Completion) (w : MappedSubject.World V)
         (changes : list (nat * V)),
    MappedSubject.well_subscribed w ->
    MappedSubject.mapped
      (MappedSubject.set_inputs observe changes (MappedSubject.destroy w)).1
      = MappedSubject.mapped w
    /\ MappedSubject.get (MappedSubject.set_inputs observe changes (MappedSubject.destroy w)).1
       = MappedSubject.get w
    /\ Forall (fun ev => notified_by MappedSubject.self ev = false)
         (MappedSubject.set_inputs observe changes (MappedSubject.destroy w)).2.
Proof.
  intros V observe w changes Hwf.
  destruct (destroy_detaches Hwf) as [Hm Hd].
  destruct (set_inputs_detached observe changes Hd) as [Hm' Ht].
  assert (Hmw : MappedSubject.mapped
                  (MappedSubject.set_inputs observe changes (MappedSubject.destroy w)).1
                = MappedSubject.mapped w) by congruence.
  repeat split; [exact Hmw | | exact Ht].
  unfold MappedSubject.get. by rewrite Hmw.
Qed.

Lemma destroyed_mapped_subject_is_frozen_witness :
  MappedSubject.get
    (MappedSubject.set_inputs Scenario.observer [(0, 5); (1, 7)]%nat
       (MappedSubject.destroy Scenario.sum_world)).1 = 3%nat
  /\ Forall (fun ev => notified_by MappedSubject.self ev = false)
       (MappedSubject.set_inputs Scenario.observer [(0, 5); (1, 7)]%nat
          (MappedSubject.destroy Scenario.sum_world)).2.
Proof.
  destruct (@destroyed_mapped_subject_is_frozen nat Scenario.observer Scenario.sum_world
              [(0, 5); (1, 7)]%nat) as (_ & H2 & H3).
  - apply (@create_well_subscribed nat Scenario.observer Scenario.truthy
             Scenario.sum_inputs Nat.eqb
             None None [0; 1]%nat [10; 11]%nat Scenario.subjects).
    + reflexivity.
    + apply NoDup_cons. split; [|apply NoDup_singleton].
      intros Hin. apply list_elem_of_In in Hin. cbn in Hin. lia.
    + intros k f Hin. reflexivity.
  - split; [exact H2 | exact H3].
Defined.

(** * Further properties of the code *)

(** ** Event bus: unsubscribing *)

Lemma indexOf_not_in (f : Fn) (l : list Fn) : ~ In f l -> indexOf f l = None.
Proof.
  induction l as [|x l IH]; cbn; [reflexivity|]. intros Hn.
  destruct (Nat.eqb_spec x f) as [->|Hne]; [tauto|].
  rewrite IH by tauto. reflexivity.
Qed.

Lemma indexOf_first (f : Fn) (pre post : list Fn) :
  ~ In f pre -> indexOf f (pre ++ f :: post) = Some (length pre).
Proof.
  induction pre as [|x pre IH]; cbn; intros Hn.
  - by rewrite Nat.eqb_refl.
  - destruct (Nat.eqb_spec x f) as [->|Hne]; [tauto|].
    rewrite IH by tauto. reflexivity.
Qed.

Lemma splice1_middle (pre post : list Fn) (x : Fn) :
  splice1 (length pre) (pre ++ x :: post) = pre ++ post.
Proof. induction pre as [|y pre IH]; cbn; [reflexivity | by rewrite IH]. Qed.

(** The handlers of a topic after [off], in terms of the array before. *)
Lemma off_handlers_of {D : Type} (topic : string) (h : Fn) (b : EventBus.t D) :
  EventBus.handlers_of topic (EventBus.off topic h b)
  = match indexOf h (EventBus.handlers_of topic b) with
    | Some i => splice1 i (EventBus.handlers_of topic b)
    | None => EventBus.handlers_of topic b
    end.
Proof.
  unfold EventBus.off, EventBus.handlers_of.
  destruct (EventBus._topicHandlersMap b !! topic) as [hs|] eqn:E; cbn.
  - by rewrite lookup_insert_eq.
  - by rewrite E.
Qed.

(** X1.  [off(topic, handler)] takes out the first registration of the handler
    for the topic and leaves the other registrations in their order; when the
    handler is not registered for the topic nothing changes.  Other topics,
    the wildcard handlers and the cache are never touched. *)
Theorem off_removes_first_registration :
  forall (D : Type) (topic : string) (h : Fn) (b : EventBus.t D),
    (~ In h (EventBus.handlers_of topic b) ->
       EventBus.handlers_of topic (EventBus.off topic h b) = EventBus.handlers_of topic b)
    /\ (forall pre post, EventBus.handlers_of topic b = pre ++ h :: post -> ~ In h pre ->
          EventBus.handlers_of topic (EventBus.off topic h b) = pre ++ post)
    /\ (forall topic', topic' <> topic ->
          EventBus.handlers_of topic' (EventBus.off topic h b)
          = EventBus.handlers_of topic' b)
    /\ EventBus._wildcardHandlers (EventBus.off topic h b) = EventBus._wildcardHandlers b
    /\ EventBus._eventCache (EventBus.off topic h b) = EventBus._eventCache b.
Proof.
  intros D topic h b. repeat split.
  - intros Hn. by rewrite off_handlers_of, (indexOf_not_in Hn).
  - intros pre post Hl Hn. rewrite off_handlers_of, Hl, (indexOf_first post Hn).
    apply splice1_middle.
  - intros topic' Hne. unfold EventBus.off, EventBus.handlers_of.
    destruct (EventBus._topicHandlersMap b !! topic); cbn; [|reflexivity].
    by rewrite lookup_insert_ne.
  - unfold EventBus.off. destruct (EventBus._topicHandlersMap b !! topic); reflexivity.
  - unfold EventBus.off. destruct (EventBus._topicHandlersMap b !! topic); reflexivity.
Qed.

Lemma off_removes_first_registration_witness :
  EventBus.handlers_of "t" (EventBus.off "t" 9%nat Scenario.bus) = [1; 2]%nat
  /\ EventBus.handlers_of "t" (EventBus.off "t" 2%nat Scenario.bus) = [1]%nat.
Proof.
  destruct (@off_removes_first_registration nat "t" 9%nat Scenario.bus) as (H1 & _).
  destruct (@off_removes_first_registration nat "t" 2%nat Scenario.bus) as (_ & H2 & _).
  split.
  - apply H1. vm_compute. intuition lia.
  - apply (H2 [1%nat] []); [reflexivity|]. cbn. intuition lia.
Defined.

(** [on] puts the handler last in the array of its topic, whatever the
    cache holds, when the replay leaves the array alone. *)
Lemma on_handlers_of {D : Type}
    (behave : EventBus.Behaviour D)
    (topic : string) (h : Fn) (b : EventBus.t D) :
  (forall x b', EventBus.handlers_of topic (world (behave h x b'))
                = EventBus.handlers_of topic b') ->
  EventBus.handlers_of topic (world (EventBus.on behave topic h b))
  = EventBus.handlers_of topic b ++ [h].
Proof.
  intros Hb. unfold EventBus.on.
  set (b1 := match EventBus._topicHandlersMap b !! topic with
             | Some handlers => _
             | None => _
             end).
  assert (H1 : EventBus.handlers_of topic b1 = EventBus.handlers_of topic b ++ [h]).
  { subst b1. unfold EventBus.handlers_of.
    destruct (EventBus._topicHandlersMap b !! topic); cbn; by rewrite lookup_insert_eq. }
  destruct (EventBus._eventCache b1 !! topic) as [entry|]; [|exact H1].
  specialize (Hb (EventBus.data entry) b1).
  destruct (behave h (EventBus.data entry) b1) as [c b2]. cbn in *. congruence.
Qed.

(** X2.  [on] followed by [off] of the same handler gives the array of the topic
    back when the handler was not registered before.  When it was, [off]
    takes out the older registration and the handler ends up last. *)
Theorem on_off_round_trip :
  forall (D : Type) (behave : EventBus.Behaviour D)
         (topic : string) (h : Fn) (b : EventBus.t D),
    (forall x b', EventBus.handlers_of topic (world (behave h x b'))
                  = EventBus.handlers_of topic b') ->
    (~ In h (EventBus.handlers_of topic b) ->
       EventBus.handlers_of topic
         (EventBus.off topic h (world (EventBus.on behave topic h b)))
       = EventBus.handlers_of topic b)
    /\ (forall pre post, EventBus.handlers_of topic b = pre ++ h :: post -> ~ In h pre ->
          EventBus.handlers_of topic
            (EventBus.off topic h (world (EventBus.on behave topic h b)))
          = pre ++ post ++ [h]).
Proof.
  intros D behave topic h b Hb. split.
  - intros Hn.
    destruct (@off_removes_first_registration D topic h
                (world (EventBus.on behave topic h b))) as (_ & H & _).
    rewrite (H (EventBus.handlers_of topic b) []); [apply app_nil_r | | exact Hn].
    by apply (@on_handlers_of D behave topic h b).
  - intros pre post Hl Hn.
    destruct (@off_removes_first_registration D topic h
                (world (EventBus.on behave topic h b))) as (_ & H & _).
    apply (H pre (post ++ [h])); [|exact Hn].
    rewrite (@on_handlers_of D behave topic h b Hb), Hl, <- app_assoc. reflexivity.
Qed.

Lemma on_off_round_trip_witness :
  EventBus.handlers_of "t"
    (EventBus.off "t" 9%nat (world (EventBus.on Scenario.quiet "t" 9%nat Scenario.bus)))
  = [1; 2]%nat
  /\ EventBus.handlers_of "t"
       (EventBus.off "t" 1%nat (world (EventBus.on Scenario.quiet "t" 1%nat Scenario.bus)))
     = [2; 1]%nat.
Proof.
  destruct (@on_off_round_trip nat Scenario.quiet "t" 9%nat Scenario.bus) as [H1 _];
    [intros x b'; reflexivity|].
  destruct (@on_off_round_trip nat Scenario.quiet "t" 1%nat Scenario.bus) as [_ H2];
    [intros x b'; reflexivity|].
  split.
  - apply H1. vm_compute. intuition lia.
  - apply (H2 [] [2%nat]); [reflexivity | intros []].
Defined.

(** ** Event bus: what a publication leaves behind *)

(** The call [on] itself makes. *)
Lemma on_trace {D : Type} (behave : EventBus.Behaviour D)
    (topic : string) (h : Fn) (b : EventBus.t D) :
  EventBus.surface (trace (EventBus.on behave topic h b))
  = match EventBus._eventCache b !! topic with
    | Some entry => [EventBus.HandlerCall h (EventBus.data entry) []]
    | None => []
    end.
Proof.
  destruct (on_spec behave topic h b) as (b1 & _ & _ & _ & _ & ->).
  destruct (EventBus._eventCache b !! topic); reflexivity.
Qed.

(** X3.  A handler that subscribes after a cached publication is called with the
    data of that publication, also when the publication ended with an error
    of a wildcard handler; after a publication with [isCached = false] it is
    treated as if nothing had been published.  The callbacks run by the
    publication are taken not to write the cache entry of the topic. *)
Theorem late_subscriber_sees_last_cached_publication :
  forall (D : Type) (behave : EventBus.Behaviour D)
         (behaveW : EventBus.BehaviourW D)
         (topic : string) (d : D) (sync : bool) (h : Fn) (b : EventBus.t D),
    (forall f x b', EventBus._eventCache (world (behave f x b')) !! topic
                    = EventBus._eventCache b' !! topic) ->
    (forall f t x b', EventBus._eventCache (world (behaveW f t x b')) !! topic
                      = EventBus._eventCache b' !! topic) ->
    EventBus.surface
      (trace (EventBus.on behave topic h
                (world (EventBus.pub behave behaveW topic d sync true b))))
      = [EventBus.HandlerCall h d []]
    /\ EventBus.surface
         (trace (EventBus.on behave topic h
                   (world (EventBus.pub behave behaveW topic d sync false b))))
       = EventBus.surface (trace (EventBus.on behave topic h b)).
Proof.
  intros D behave behaveW topic d sync h b Hd Hw. split.
  - rewrite on_trace.
    rewrite (@pub_invariant D behave behaveW
               (fun b' => EventBus._eventCache b' !! topic
                          = Some (EventBus.mkEntry d sync))); [reflexivity | | |].
    + intros f x b' Hb. by rewrite Hd.
    + intros f t x b' Hb. by rewrite Hw.
    + cbn. apply lookup_insert_eq.
  - rewrite !on_trace.
    rewrite (@pub_invariant D behave behaveW
               (fun b' => EventBus._eventCache b' !! topic
                          = EventBus._eventCache b !! topic)); [reflexivity | | |].
    + intros f x b' Hb. by rewrite Hd.
    + intros f t x b' Hb. by rewrite Hw.
    + reflexivity.
Qed.

Lemma late_subscriber_sees_last_cached_publication_witness :
  EventBus.surface
    (trace (EventBus.on Scenario.throwing "t" 8%nat
              (world (EventBus.pub Scenario.throwing Scenario.throwingW "t" 9%nat false true
                        Scenario.bus))))
  = [EventBus.HandlerCall 8%nat 9%nat []].
Proof.
  destruct (@late_subscriber_sees_last_cached_publication nat Scenario.throwing
              Scenario.throwingW "t" 9%nat false 8%nat Scenario.bus) as [H _].
  - intros f x b'. unfold Scenario.throwing. destruct (Nat.eqb f 1); reflexivity.
  - intros f t x b'. unfold Scenario.throwingW. destruct (Nat.eqb f 3); reflexivity.
  - exact H.
Defined.

(** X4.  [resyncEvents()] hands to the adapter exactly the cached topics whose
    last cached publication was synced, each once, with the cached data and
    [isCached = true]; a topic whose last cached publication was local is
    not sent. *)
Theorem resync_sends_the_synced_entries :
  forall (D : Type) (b : EventBus.t D),
    (forall ev, In ev (EventBus.resyncEvents b) <->
                exists topic d, ev = EventBus.SendEvent topic d true
                                /\ EventBus._eventCache b !! topic
                                   = Some (EventBus.mkEntry d true))
    /\ NoDup (EventBus.resyncEvents b).
Proof.
  intros D b. unfold EventBus.resyncEvents. split.
  - intros ev. rewrite in_flat_map. split.
    + intros [[topic [d s]] [Hin Hev]].
      apply list_elem_of_In, elem_of_map_to_list in Hin. cbn in Hev.
      destruct s; [|destruct Hev].
      destruct Hev as [<-|[]]. eauto.
    + intros (topic & d & -> & Hc).
      exists (topic, EventBus.mkEntry d true). split.
      * by apply list_elem_of_In, elem_of_map_to_list.
      * cbn. by left.
  - pose proof (NoDup_fst_map_to_list (EventBus._eventCache b)) as Hnd.
    induction (map_to_list (EventBus._eventCache b)) as [|[topic [d s]] l IH]; cbn.
    + constructor.
    + cbn in Hnd. apply NoDup_cons in Hnd. destruct Hnd as [Hn Hnd].
      specialize (IH Hnd).
      destruct s; cbn; [|exact IH].
      apply NoDup_cons. split; [|exact IH].
      intros Hin. apply list_elem_of_In, in_flat_map in Hin.
      destruct Hin as [[topic' [d' s']] [Hin Hev]]. cbn in Hev.
      destruct s'; [|destruct Hev]. destruct Hev as [Heq|[]].
      injection Heq as -> ->. apply Hn.
      apply list_elem_of_fmap. exists (topic, EventBus.mkEntry d true).
      split; [reflexivity | by apply list_elem_of_In].
Qed.

(** ** Publishers *)

Arguments EventBus.pub : simpl never.

Section PublisherTrace.
Context {D : Type}.
Variable behave : EventBus.Behaviour D.
Variable behaveW : EventBus.BehaviourW D.

Lemma cache_writes_app (t1 t2 : list (EventBus.Event D)) :
  EventBus.cache_writes (t1 ++ t2) = EventBus.cache_writes t1 ++ EventBus.cache_writes t2.
Proof. apply omap_app. Qed.

Lemma cache_writes_step (h : Fn) (d : D) (c : Completion)
    (inner t : list (EventBus.Event D)) :
  EventBus.cache_writes
    (EventBus.HandlerCall h d inner ::
     match c with Returned => [] | Thrown e => [EventBus.ErrorLogged e] end ++ t)
  = EventBus.cache_writes t.
Proof. destruct c; reflexivity. Qed.

Lemma topic_loop_no_cache_writes (topic : string) (d : D) :
  forall n i b, EventBus.cache_writes (EventBus.topic_loop behave topic d n i b).2 = [].
Proof.
  induction n as [|n IH]; intros i b; cbn; [reflexivity|].
  unfold EventBus.topic_step.
  destruct (EventBus.handlers_of topic b !! i) as [h|].
  - specialize (IH (S i) (world (behave h d b))).
    destruct (EventBus.topic_loop behave topic d n (S i) (world (behave h d b))). cbn in *.
    by rewrite cache_writes_step.
  - specialize (IH (S i) b).
    destruct (EventBus.topic_loop behave topic d n (S i) b). cbn in *. exact IH.
Qed.

Lemma wildcard_loop_no_cache_writes (topic : string) (d : D) :
  forall n i b,
    EventBus.cache_writes (trace (EventBus.wildcard_loop behaveW topic d n i b)) = [].
Proof.
  induction n as [|n IH]; intros i b; cbn; [reflexivity|].
  destruct (EventBus._wildcardHandlers b !! i) as [h|]; [|reflexivity].
  destruct (completion (behaveW h topic d b)) as [|e]; [|reflexivity].
  cbn [trace]. exact (IH (S i) _).
Qed.

(** A publication writes the cache once if [isCached], and never otherwise. *)
Lemma pub_cache_writes (topic : string) (d : D) (sync isCached : bool) (b : EventBus.t D) :
  EventBus.cache_writes (trace (EventBus.pub behave behaveW topic d sync isCached b))
  = if isCached then [(topic, d)] else [].
Proof.
  destruct (@pub_phases D behave behaveW topic d sync isCached b) as (_ & _ & _ & ->).
  rewrite !cache_writes_app, topic_loop_no_cache_writes, wildcard_loop_no_cache_writes.
  destruct isCached, sync; reflexivity.
Qed.


End PublisherTrace.



(** X6.  [dispatchHEvent] never writes the cache: whatever was dispatched, a
    handler that subscribes afterwards, to any topic, is replayed what it
    would have been replayed before.  The callbacks run by the publication
    are taken not to write the cache. *)
Theorem h_events_are_not_cached :
  forall (D : Type) (behave : EventBus.Behaviour D)
         (behaveW : EventBus.BehaviourW D)
         (hEvent : D) (sync : option bool) (p : BasePublisher.t D) (b : EventBus.t D),
    (forall f x b', EventBus._eventCache (world (behave f x b')) = EventBus._eventCache b') ->
    (forall f t x b', EventBus._eventCache (world (behaveW f t x b')) = EventBus._eventCache b') ->
    EventBus.cache_writes
      (trace (HEventPublisher.dispatchHEvent behave behaveW hEvent sync p b)) = []
    /\ forall topic h,
         EventBus.surface
           (trace (EventBus.on behave topic h
                     (world (HEventPublisher.dispatchHEvent behave behaveW hEvent sync p b))))
         = EventBus.surface (trace (EventBus.on behave topic h b)).
Proof.
  intros D behave behaveW hEvent sync p b Hd Hw.
  unfold HEventPublisher.dispatchHEvent, BasePublisher.publish.
  destruct (_ && _); cbn [or_default]; [|by split].
  split; [by rewrite pub_cache_writes|].
  intros topic h. rewrite !on_trace.
  rewrite (@pub_invariant D behave behaveW
             (fun b' => EventBus._eventCache b' = EventBus._eventCache b));
    [reflexivity | | | reflexivity].
  - intros f x b' Hb. by rewrite Hd.
  - intros f t x b' Hb. by rewrite Hw.
Qed.

Lemma h_events_are_not_cached_witness :
  EventBus.surface
    (trace (EventBus.on Scenario.quiet "hEvent" 8%nat
              (world (HEventPublisher.dispatchHEvent Scenario.quiet Scenario.quietW 4%nat None
                        (BasePublisher.startPublish (BasePublisher.create None))
                        Scenario.bus))))
  = [].
Proof.
  destruct (@h_events_are_not_cached nat Scenario.quiet Scenario.quietW 4%nat None
              (BasePublisher.startPublish (BasePublisher.create None)) Scenario.bus)
    as [_ H].
  - intros f x b'. reflexivity.
  - intros f t x b'. reflexivity.
  - rewrite H. vm_compute. reflexivity.
Defined.

(** ** Subject: apply *)

Section ApplyProofs.
Context {F : Type}.
Variable undefined : F.
Variable strict_equal : F -> F -> bool.




End ApplyProofs.



(** ** ComputedSubject: the computed value *)

Lemma computed_set_loop_observers {I T : Type}
    (call : Fn -> T -> I -> ComputedSubject.t I T -> Completion * ComputedSubject.t I T) :
  (forall f c r s', (call f c r s').2 = s') ->
  forall n i s, world (ComputedSubject.set_loop call n i s) = s.
Proof.
  intros Hobs. induction n as [|n IH]; intros i s; cbn; [reflexivity|].
  destruct (ComputedSubject._subs s !! i) as [f|]; [|reflexivity].
  pose proof (Hobs f (ComputedSubject._computedValue s) (ComputedSubject._value s) s) as H.
  destruct (call f _ _ s) as [[|e] s1]; cbn in *; subst s1; [apply IH | reflexivity].
Qed.

(** X8.  After [set(x)] the raw value is [x] and the computed value is
    [computeFn(x)], also when a subscriber threw and [set] ended with its
    error; a [set] that leaves the computed value as it was replaces the raw
    value and calls nobody.  The subscribers are taken to leave the subject
    alone. *)
Theorem computed_value_follows_the_raw_value :
  forall (I T : Type) (Heq : EqDecision T)
         (call : Fn -> T -> I -> ComputedSubject.t I T -> Completion * ComputedSubject.t I T)
         (s : ComputedSubject.t I T) (x : I),
    (forall f c r s', (call f c r s').2 = s') ->
    ComputedSubject._value (world (ComputedSubject.set call x s)) = x
    /\ ComputedSubject._computedValue (world (ComputedSubject.set call x s))
       = ComputedSubject.computeFn s x
    /\ (ComputedSubject.computeFn s x = ComputedSubject._computedValue s ->
          trace (ComputedSubject.set call x s) = []
          /\ completion (ComputedSubject.set call x s) = Returned).
Proof.
  intros I T Heq call s x Hobs. unfold ComputedSubject.set. cbn.
  destruct (decide (ComputedSubject.computeFn s x = ComputedSubject._computedValue s))
    as [He|Hne]; cbn.
  - repeat split; congruence.
  - rewrite (computed_set_loop_observers Hobs). cbn. repeat split; congruence.
Qed.

Lemma computed_value_follows_the_raw_value_witness :
  ComputedSubject._value (world (ComputedSubject.set Scenario.throwing_sub 1%nat
                                   Scenario.computed)) = 1%nat
  /\ ComputedSubject._computedValue
       (world (ComputedSubject.set Scenario.throwing_sub 1%nat Scenario.computed)) = false
  /\ trace (ComputedSubject.set Scenario.throwing_sub 2%nat Scenario.computed) = [].
Proof.
  destruct (@computed_value_follows_the_raw_value nat bool _ Scenario.throwing_sub
              Scenario.computed 1%nat) as (H1 & H2 & _).
  { intros f c r s'. unfold Scenario.throwing_sub. destruct (Nat.eqb f 1); reflexivity. }
  destruct (@computed_value_follows_the_raw_value nat bool _ Scenario.throwing_sub
              Scenario.computed 2%nat) as (_ & _ & H3).
  { intros f c r s'. unfold Scenario.throwing_sub. destruct (Nat.eqb f 1); reflexivity. }
  split; [exact H1|]. split; [exact H2|]. apply H3. reflexivity.
Defined.

(** ** MappedSubject: following the inputs *)



Section MappedFollows.
Context {V : Type}.
Variable observe : Fn -> V -> Completion.
Variable combine : list V -> V.






Lemma same_frame_refl (m : MappedSubject.t V) : MappedSubject.same_frame m m.
Proof. repeat split. Qed.


End MappedFollows.

Section MappedCoherence.
Context {V : Type}.
Variable observe : Fn -> V -> Completion.
Variable combine : list V -> V.







End MappedCoherence.



(** ** Consumer: the filters *)

Section ConsumerFilters.
Local Open Scope Q_scope.

Lemma Qltb_lt (a b : Q) : Consumer.Qltb a b = true <-> a < b.
Proof.
  unfold Consumer.Qltb. rewrite negb_true_iff. split.
  - intros H. apply Qnot_le_lt. intros Hle. apply Qle_bool_iff in Hle. congruence.
  - intros H. destruct (Qle_bool b a) eqn:E; [|reflexivity].
    apply Qle_bool_iff in E. exfalso. exact (Qlt_not_le _ _ H E).
Qed.

Lemma Qltb_ge (a b : Q) : Consumer.Qltb a b = false <-> b <= a.
Proof.
  unfold Consumer.Qltb. rewrite negb_false_iff. apply Qle_bool_iff.
Qed.






End ConsumerFilters.




Section ConsumerNumbers.
Local Open Scope Q_scope.



End ConsumerNumbers.



(** ** SaltyIRS: the state variable and the timer *)

Section Alignment.
Local Open Scope Q_scope.

Lemma irs_Qltb_lt (a b : Q) : SaltyIRS.Qltb a b = true <-> a < b.
Proof. apply Qltb_lt. Qed.

Lemma isIRSOn_some (r : SaltyIRS.Readings) :
  SaltyIRS.isIRSOn r = true -> SaltyIRS.isSomeIRSOn r = true.
Proof.
  unfold SaltyIRS.isIRSOn, SaltyIRS.isSomeIRSOn.
  intros H. apply andb_true_iff in H. destruct H as [H _].
  apply andb_true_iff in H. destruct H as [-> _]. reflexivity.
Qed.

(** The timer branch of [update], entered in state 1 with time left. *)
Lemma timer_step_consistent (timer : Q) (last : option Q) (left : Q) :
  SaltyIRS.consistent
    (if Qle_bool timer 0
     then SaltyIRS.mk (-1) last 2 left
     else SaltyIRS.mk timer last 1 left).
Proof.
  destruct (Qle_bool timer 0) eqn:E.
  - right. right. by split.
  - right. left. split; [reflexivity|]. cbn.
    apply Qnot_le_lt. intros Hle. apply Qle_bool_iff in Hle. congruence.
Qed.

(** One update keeps the state variable and the timer in agreement. *)
Variable elapse : Q -> Q -> Q.

Lemma update_consistent (electricityIsAvail : bool) (timeNow : Q) (r : SaltyIRS.Readings)
    (s : SaltyIRS.t) :
  0 < SaltyIRS.alignTime r ->
  SaltyIRS.consistent s ->
  SaltyIRS.consistent (SaltyIRS.update elapse electricityIsAvail timeNow r s).
Proof.
  intros Hpos Hs. unfold SaltyIRS.update.
  destruct electricityIsAvail; cbn [negb]; [|exact Hs].
  cbn [SaltyIRS.irsTimer SaltyIRS.lastTime SaltyIRS.SALTY_IRS_STATE
       SaltyIRS.SALTY_IRS_TIME_LEFT].
  destruct (SaltyIRS.isSomeIRSOn r) eqn:Esome; cbn [negb andb].
  - destruct Hs as [H0|[[H1 Ht]|[H2 Ht]]].
    + rewrite H0. cbn [Z.eqb andb].
      destruct (SaltyIRS.isIRSOn r) eqn:Eon; cbn [andb].
      * cbn [SaltyIRS.irsTimer SaltyIRS.lastTime SaltyIRS.SALTY_IRS_STATE
             SaltyIRS.SALTY_IRS_TIME_LEFT Z.eqb Pos.eqb].
        rewrite (proj2 (irs_Qltb_lt _ _) Hpos). apply timer_step_consistent.
      * cbn [SaltyIRS.irsTimer SaltyIRS.lastTime SaltyIRS.SALTY_IRS_STATE
             SaltyIRS.SALTY_IRS_TIME_LEFT Z.eqb]. by left.
    + rewrite H1. cbn [Z.eqb Pos.eqb andb]. rewrite andb_false_r.
      cbn [SaltyIRS.irsTimer SaltyIRS.lastTime SaltyIRS.SALTY_IRS_STATE
           SaltyIRS.SALTY_IRS_TIME_LEFT Z.eqb Pos.eqb].
      rewrite (proj2 (irs_Qltb_lt _ _) Ht). apply timer_step_consistent.
    + rewrite H2. cbn [Z.eqb Pos.eqb andb]. rewrite andb_false_r.
      cbn [SaltyIRS.irsTimer SaltyIRS.lastTime SaltyIRS.SALTY_IRS_STATE
           SaltyIRS.SALTY_IRS_TIME_LEFT Z.eqb Pos.eqb].
      right. right. by split.
  - assert (Eon : SaltyIRS.isIRSOn r = false).
    { destruct (SaltyIRS.isIRSOn r) eqn:E; [|reflexivity].
      apply isIRSOn_some in E. congruence. }
    rewrite Eon. cbn [andb].
    destruct (negb (SaltyIRS.SALTY_IRS_STATE s =? 0)%Z) eqn:E0;
      cbn [SaltyIRS.irsTimer SaltyIRS.lastTime SaltyIRS.SALTY_IRS_STATE
           SaltyIRS.SALTY_IRS_TIME_LEFT Z.eqb]; [by left|].
    apply negb_false_iff, Z.eqb_eq in E0. rewrite E0. cbn [Z.eqb]. by left.
Qed.

Lemma run_consistent (steps : list (bool * Q * SaltyIRS.Readings)) :
  Forall (fun st => 0 < SaltyIRS.alignTime st.2) steps ->
  forall s, SaltyIRS.consistent s -> SaltyIRS.consistent (SaltyIRS.run elapse steps s).
Proof.
  induction steps as [|[[power timeNow] r] steps IH]; intros HF s Hs; [exact Hs|].
  apply Forall_cons in HF. destruct HF as [Hpos HF]. cbn [SaltyIRS.run].
  apply (IH HF). by apply update_consistent.
Qed.

(** An update in state 2 with a knob on, or without power, leaves the state
    and the timer. *)
Lemma update_aligned (electricityIsAvail : bool) (timeNow : Q) (r : SaltyIRS.Readings)
    (s : SaltyIRS.t) :
  electricityIsAvail = false \/ SaltyIRS.isSomeIRSOn r = true ->
  SaltyIRS.SALTY_IRS_STATE s = 2%Z ->
  SaltyIRS.SALTY_IRS_STATE (SaltyIRS.update elapse electricityIsAvail timeNow r s) = 2%Z
  /\ SaltyIRS.irsTimer (SaltyIRS.update elapse electricityIsAvail timeNow r s)
     = SaltyIRS.irsTimer s.
Proof.
  intros Hor Hst. unfold SaltyIRS.update.
  destruct electricityIsAvail; cbn [negb]; [|by split].
  destruct Hor as [Hp|Hsome]; [discriminate|].
  cbn [SaltyIRS.irsTimer SaltyIRS.lastTime SaltyIRS.SALTY_IRS_STATE
       SaltyIRS.SALTY_IRS_TIME_LEFT].
  rewrite Hsome, Hst. cbn [negb andb Z.eqb Pos.eqb]. rewrite andb_false_r.
  cbn [SaltyIRS.irsTimer SaltyIRS.lastTime SaltyIRS.SALTY_IRS_STATE
       SaltyIRS.SALTY_IRS_TIME_LEFT Z.eqb Pos.eqb].
  by split.
Qed.

Lemma run_aligned (steps : list (bool * Q * SaltyIRS.Readings)) :
  Forall (fun st => st.1.1 = false \/ SaltyIRS.isSomeIRSOn st.2 = true) steps ->
  forall s, SaltyIRS.SALTY_IRS_STATE s = 2%Z ->
    SaltyIRS.SALTY_IRS_STATE (SaltyIRS.run elapse steps s) = 2%Z
    /\ SaltyIRS.irsTimer (SaltyIRS.run elapse steps s) = SaltyIRS.irsTimer s.
Proof.
  induction steps as [|[[power timeNow] r] steps IH]; intros HF s Hs; [by split|].
  apply Forall_cons in HF. destruct HF as [Hor HF]. cbn [SaltyIRS.run].
  destruct (@update_aligned power timeNow r s Hor Hs) as [H1 H2].
  destruct (IH HF _ H1) as [H3 H4]. split; [exact H3 | congruence].
Qed.

End Alignment.

(** X15.  Whatever the subtraction that counts the timer down yields, exact
    or rounded: from [init()], with the state variable at 0 or 2 and readings that
    give a positive align time, any sequence of updates, with or without
    power, at any times, keeps the state variable and the timer in
    agreement: the state is 0, or it is 1 and the timer is positive, or it
    is 2 and the timer is -1.  From a state 2 that was reached that way, the
    state stays 2 and the timer -1 through all further updates that are made
    without power or with at least one knob on; and whatever the state, an
    update with power and all three knobs off sets it to 0. *)
Theorem irs_state_and_timer_agree (elapse : Q -> Q -> Q) (state0 : Z) (timeLeft : Q)
    (steps : list (bool * Q * SaltyIRS.Readings)) :
  state0 = 0%Z \/ state0 = 2%Z ->
  Forall (fun st => (0 < SaltyIRS.alignTime st.2)%Q) steps ->
  let s := SaltyIRS.run elapse steps (SaltyIRS.init state0 timeLeft) in
  SaltyIRS.consistent s
  /\ (forall more,
        SaltyIRS.SALTY_IRS_STATE s = 2%Z ->
        Forall (fun st => st.1.1 = false \/ SaltyIRS.isSomeIRSOn st.2 = true) more ->
        SaltyIRS.SALTY_IRS_STATE (SaltyIRS.run elapse more s) = 2%Z
        /\ SaltyIRS.irsTimer (SaltyIRS.run elapse more s) = (-1)%Q)
  /\ (forall timeNow r,
        SaltyIRS.isSomeIRSOn r = false ->
        SaltyIRS.SALTY_IRS_STATE (SaltyIRS.update elapse true timeNow r s) = 0%Z).
Proof.
  intros H0 HF s.
  assert (Hs : SaltyIRS.consistent s).
  { apply (@run_consistent elapse steps HF). destruct H0 as [->| ->]; [by left|].
    right. right. by split. }
  split; [exact Hs|]. split.
  - intros more H2 Hmore. destruct (@run_aligned elapse more Hmore s H2) as [H3 H4].
    split; [exact H3|]. rewrite H4.
    destruct Hs as [Hs|[[Hs _]|[_ Hs]]]; [congruence | congruence | exact Hs].
  - intros timeNow r Hoff. unfold SaltyIRS.update. cbn [negb].
    cbn [SaltyIRS.irsTimer SaltyIRS.lastTime SaltyIRS.SALTY_IRS_STATE
         SaltyIRS.SALTY_IRS_TIME_LEFT].
    assert (Eon : SaltyIRS.isIRSOn r = false).
    { destruct (SaltyIRS.isIRSOn r) eqn:E; [|reflexivity].
      apply isIRSOn_some in E. congruence. }
    rewrite Hoff, Eon. cbn [negb andb].
    destruct (negb (SaltyIRS.SALTY_IRS_STATE s =? 0)%Z) eqn:E0;
      cbn [SaltyIRS.irsTimer SaltyIRS.lastTime SaltyIRS.SALTY_IRS_STATE
           SaltyIRS.SALTY_IRS_TIME_LEFT Z.eqb]; [reflexivity|].
    apply negb_false_iff, Z.eqb_eq in E0. rewrite E0. reflexivity.
Qed.

Lemma irs_state_and_timer_agree_witness :
  SaltyIRS.consistent
    (SaltyIRS.run SaltyIRS.exact_elapse
       [(true, 0, Cases.readings); (false, 1000, Cases.readings);
        (true, 650000, Cases.readings); (true, 650016, Cases.knobs_off)]%Q
       (SaltyIRS.init 0 0)).
Proof.
  apply (@irs_state_and_timer_agree SaltyIRS.exact_elapse 0 0
           [(true, 0, Cases.readings); (false, 1000, Cases.readings);
            (true, 650000, Cases.readings); (true, 650016, Cases.knobs_off)]%Q).
  - by left.
  - repeat constructor.
Defined.

(** ** Display: heading differences and the vertical speed scale *)

Section DisplayScales.
Local Open Scope Q_scope.

Lemma display_Qltb_lt (a b : Q) : Display.Qltb a b = true <-> a < b.
Proof. apply Qltb_lt. Qed.

Lemma display_Qltb_ge (a b : Q) : Display.Qltb a b = false <-> b <= a.
Proof. apply Qltb_ge. Qed.

Lemma Math_min_spec (a b : Q) :
  (a <= b /\ Display.Math_min a b = a) \/ (b < a /\ Display.Math_min a b = b).
Proof.
  unfold Display.Math_min. destruct (Qle_bool a b) eqn:E.
  - left. split; [by apply Qle_bool_iff | reflexivity].
  - right. split; [|reflexivity].
    apply Qnot_le_lt. intros H. apply Qle_bool_iff in H. congruence.
Qed.

Lemma Math_max_spec (a b : Q) :
  (a <= b /\ Display.Math_max a b = b) \/ (b < a /\ Display.Math_max a b = a).
Proof.
  unfold Display.Math_max. destruct (Qle_bool a b) eqn:E.
  - left. split; [by apply Qle_bool_iff | reflexivity].
  - right. split; [|reflexivity].
    apply Qnot_le_lt. intros H. apply Qle_bool_iff in H. congruence.
Qed.

(** The scale as a function of the absolute value. *)
Lemma scale_bounds (a : Q) :
  0 <= a -> a <= 6000 ->
  0 <= (8 # 100) * Display.Math_min a 1000
       + (6 # 100) * Display.Math_min (Display.Math_max (a - 1000) 0) 1000
       + (1 # 100) * Display.Math_max (a - 2000) 0
    <= 180.
Proof.
  intros H0 H6.
  destruct (Math_min_spec a 1000) as [[? ->]|[? ->]];
    destruct (Math_max_spec (a - 1000) 0) as [[? ->]|[? ->]];
    destruct (Math_max_spec (a - 2000) 0) as [[? ->]|[? ->]];
    match goal with
    | |- context [Display.Math_min ?x 1000] =>
        destruct (Math_min_spec x 1000) as [[? ->]|[? ->]]
    end; split; lra.
Qed.

End DisplayScales.

(** X16.  For two headings less than 540 degrees apart (any two headings in
    [0, 360) are), [getHeadingDelta] is their difference brought into
    [-180, 180] by a full turn, and swapping the arguments changes its sign,
    so that [getDriftAngle(heading, track)] is [getHeadingDelta(track,
    heading)]. *)
Theorem heading_delta_is_within_half_a_turn (heading1 heading2 : Q) :
  (-540 <= heading1 - heading2)%Q -> (heading1 - heading2 <= 540)%Q ->
  (-180 <= Display.getHeadingDelta heading1 heading2)%Q
  /\ (Display.getHeadingDelta heading1 heading2 <= 180)%Q
  /\ ((Display.getHeadingDelta heading1 heading2 == heading1 - heading2)%Q
      \/ (Display.getHeadingDelta heading1 heading2 == heading1 - heading2 - 360)%Q
      \/ (Display.getHeadingDelta heading1 heading2 == heading1 - heading2 + 360)%Q)
  /\ (Display.getDriftAngle heading1 heading2
      == Display.getHeadingDelta heading2 heading1)%Q.
Proof.
  intros Hlo Hhi. unfold Display.getDriftAngle, Display.getHeadingDelta. cbn zeta.
  destruct (Display.Qltb 180 (heading1 - heading2)) eqn:E1;
    destruct (Display.Qltb (heading1 - heading2) (-180)) eqn:E2;
    destruct (Display.Qltb 180 (heading2 - heading1)) eqn:E3;
    destruct (Display.Qltb (heading2 - heading1) (-180)) eqn:E4;
    try apply display_Qltb_lt in E1; try apply display_Qltb_ge in E1;
    try apply display_Qltb_lt in E2; try apply display_Qltb_ge in E2;
    try apply display_Qltb_lt in E3; try apply display_Qltb_ge in E3;
    try apply display_Qltb_lt in E4; try apply display_Qltb_ge in E4;
    try (exfalso; lra);
    (split; [lra|]; split; [lra|]; split; [|lra]);
    first [left; lra | right; left; lra | right; right; lra].
Qed.

Lemma heading_delta_is_within_half_a_turn_witness :
  (-180 <= Display.getHeadingDelta 350 10)%Q
  /\ (Display.getHeadingDelta 350 10 <= 180)%Q
  /\ ((Display.getHeadingDelta 350 10 == 350 - 10)%Q
      \/ (Display.getHeadingDelta 350 10 == 350 - 10 - 360)%Q
      \/ (Display.getHeadingDelta 350 10 == 350 - 10 + 360)%Q)
  /\ (Display.getDriftAngle 350 10 == Display.getHeadingDelta 10 350)%Q.
Proof.
  apply (@heading_delta_is_within_half_a_turn 350 10); unfold Qle; cbn; lia.
Defined.

(** X17.  [fpmToPixels] stays within 180 pixels either way, is 0 or upwards
    (negative) for a climb and 0 or downwards for a descent, and gives
    opposite offsets for opposite vertical speeds. *)
Theorem fpm_to_pixels_is_odd_and_bounded (fpm : Q) :
  (-180 <= Display.fpmToPixels fpm)%Q
  /\ (Display.fpmToPixels fpm <= 180)%Q
  /\ ((fpm <= 0)%Q \/ (Display.fpmToPixels fpm <= 0)%Q)
  /\ ((0 < fpm)%Q \/ (0 <= Display.fpmToPixels fpm)%Q)
  /\ (Display.fpmToPixels (- fpm) == - Display.fpmToPixels fpm)%Q.
Proof.
  assert (Hb : forall x : Q,
            (0 <= (if Display.Qltb 6000 x || Display.Qltb x (-6000) then 180
                   else (8 # 100) * Display.Math_min (Qabs x) 1000
                        + (6 # 100) * Display.Math_min
                                        (Display.Math_max (Qabs x - 1000) 0) 1000
                        + (1 # 100) * Display.Math_max (Qabs x - 2000) 0) <= 180)%Q).
  { intros x.
    destruct (Display.Qltb 6000 x) eqn:E1; [cbn; split; lra|].
    destruct (Display.Qltb x (-6000)) eqn:E2; [cbn; split; lra|]. cbn.
    apply display_Qltb_ge in E1, E2.
    apply scale_bounds; [apply Qabs_nonneg|].
    apply Qabs_Qle_condition. split; lra. }
  unfold Display.fpmToPixels. cbn zeta.
  pose proof (Hb fpm) as H1. pose proof (Hb (- fpm)%Q) as H2.
  assert (Hflip : (if Display.Qltb 6000 (- fpm) || Display.Qltb (- fpm) (-6000) then 180
                   else (8 # 100) * Display.Math_min (Qabs (- fpm)) 1000
                        + (6 # 100) * Display.Math_min
                                        (Display.Math_max (Qabs (- fpm) - 1000) 0) 1000
                        + (1 # 100) * Display.Math_max (Qabs (- fpm) - 2000) 0)%Q
                  = (if Display.Qltb 6000 fpm || Display.Qltb fpm (-6000) then 180
                     else (8 # 100) * Display.Math_min (Qabs fpm) 1000
                          + (6 # 100) * Display.Math_min
                                          (Display.Math_max (Qabs fpm - 1000) 0) 1000
                          + (1 # 100) * Display.Math_max (Qabs fpm - 2000) 0)%Q).
  { assert (Ha : Qabs (- fpm) = Qabs fpm).
    { destruct fpm as [[|p|p] d]; reflexivity. }
    rewrite Ha.
    destruct (Display.Qltb 6000 fpm) eqn:E1; destruct (Display.Qltb fpm (-6000)) eqn:E2;
      destruct (Display.Qltb 6000 (- fpm)) eqn:E3;
      destruct (Display.Qltb (- fpm) (-6000)) eqn:E4; cbn; try reflexivity; exfalso;
      try apply display_Qltb_lt in E1; try apply display_Qltb_ge in E1;
      try apply display_Qltb_lt in E2; try apply display_Qltb_ge in E2;
      try apply display_Qltb_lt in E3; try apply display_Qltb_ge in E3;
      try apply display_Qltb_lt in E4; try apply display_Qltb_ge in E4; lra. }
  rewrite Hflip in *. clear Hflip H2.
  set (pixels := (if Display.Qltb 6000 fpm || Display.Qltb fpm (-6000) then 180 else _)%Q) in *.
  assert (Hzero : (fpm == 0)%Q -> (pixels == 0)%Q).
  { intros Hz. subst pixels.
    rewrite (proj2 (display_Qltb_ge 6000 fpm)) by lra.
    rewrite (proj2 (display_Qltb_ge fpm (-6000))) by lra. cbn.
    assert (Ha : (Qabs fpm == 0)%Q) by (rewrite Hz; reflexivity).
    destruct (Math_min_spec (Qabs fpm) 1000) as [[? ->]|[? ->]];
      destruct (Math_max_spec (Qabs fpm - 1000) 0) as [[? ->]|[? ->]];
      destruct (Math_max_spec (Qabs fpm - 2000) 0) as [[? ->]|[? ->]];
      match goal with
      | |- context [Display.Math_min ?x 1000] =>
          destruct (Math_min_spec x 1000) as [[? ->]|[? ->]]
      end; lra. }
  destruct (Display.Qltb 0 fpm) eqn:E; destruct (Display.Qltb 0 (- fpm)) eqn:E';
    try apply display_Qltb_lt in E; try apply display_Qltb_ge in E;
    try apply display_Qltb_lt in E'; try apply display_Qltb_ge in E';
    try (exfalso; lra).
  - split; [lra|]. split; [lra|]. split; [right; lra|]. split; [left; lra | lra].
  - split; [lra|]. split; [lra|]. split; [left; lra|]. split; [right; lra | lra].
  - assert (Hz : (fpm == 0)%Q) by lra. specialize (Hzero Hz).
    split; [lra|]. split; [lra|]. split; [left; lra|]. split; [right; lra | lra].
Qed.
